(** * onion-checker: a shallow embedding of [checker.py]

    The development follows the layout of the script:

    - [Py]: the fragment of Python the script relies on (exceptions, the
      [str] methods it calls, [round], [str(int)]);
    - [UrlParse]: the part of [urllib.parse.urlparse] that decides the
      [hostname] attribute;
    - [Normalizer]: [extract_clean_onion];
    - [Loaders]: [load_onions_from_txt], [load_onions_from_csv],
      [load_onions_from_sqlite];
    - [Probe]: [check_onion];
    - [Pool]: the [ThreadPoolExecutor] / [as_completed] loop of [main],
      as a labelled transition system over every interleaving;
    - [Report]: the aggregation at the end of [main].

    Conventions.  A Python [str] is a [string] whose characters are code
    points below 256.  A Python [float] holding a time is an exact
    rational ([Q]): binary rounding error is not modelled, and the
    statements about times are those that hold of binary floats as
    well (signs, bounds, and values that are binary fractions).  A
    Python [dict] with string keys is a [gmap string _], a [set] of
    strings a [gset string].  A call that may raise returns a
    [result]. *)

From Stdlib Require Import ZArith QArith Qround Qabs Lqa String Ascii List Lia.
From Stdlib Require Import DecimalString DecimalZ.
From stdpp Require Import base gmap sets list strings.

Local Open Scope string_scope.

(* ===================================================================== *)
(** ** Python fragment *)
(* ===================================================================== *)

Module Py.

(** Faults of [requests.get]; all of them derive from
    [requests.exceptions.RequestException], hence from [Exception]. *)
Inductive request_fault :=
| Timeout
| ConnectionError
| ProxyError
| NameResolutionError
| ProtocolError
| InvalidURL.

(** The exceptions that can occur in the script. *)
Inductive exn :=
| ValueError (msg : string)
| AttributeError (msg : string)
| TypeError (msg : string)
| ZeroDivisionError (msg : string)
| IndexError (msg : string)
| KeyError (key : string)
| RequestException (f : request_fault)
| KeyboardInterrupt
| SystemExit.

(** [isinstance(e, Exception)]: what an [except Exception:] clause
    catches.  [KeyboardInterrupt] and [SystemExit] derive from
    [BaseException] only. *)
Definition isinstance_Exception (e : exn) : bool :=
  match e with
  | KeyboardInterrupt | SystemExit => false
  | _ => true
  end.

(** A computation that returns a value or raises. *)
Inductive result (A : Type) :=
| Ok (a : A)
| Raise (e : exn).
Arguments Ok {A} a.
Arguments Raise {A} e.

#[export] Instance result_ret : MRet result := @Ok.
#[export] Instance result_bind : MBind result := λ A B k m,
  match m with
  | Ok a => k a
  | Raise e => Raise e
  end.

Definition returns {A} (m : result A) : Prop := ∃ a, m = Ok a.

(** *** Characters *)

Definition ord (c : ascii) : N := N_of_ascii c.

(** [str.isspace] on one character (code points below 256). *)
Definition isspace (c : ascii) : bool :=
  let n := ord c in
  ((9 <=? n) && (n <=? 13) || (28 <=? n) && (n <=? 32)
   || (n =? 133) || (n =? 160))%N.

(** [str.lower] on one character: A-Z, and the upper-case letters of the
    Latin-1 block (U+00C0..U+00DE without the multiplication sign). *)
Definition lower_char (c : ascii) : ascii :=
  let n := ord c in
  if ((65 <=? n) && (n <=? 90)
      || (192 <=? n) && (n <=? 222) && negb (n =? 215))%N
  then ascii_of_N (n + 32) else c.

(** *** [str] methods *)

Fixpoint lower (s : string) : string :=
  match s with
  | "" => ""
  | String c s' => String (lower_char c) (lower s')
  end.

Fixpoint lstrip (s : string) : string :=
  match s with
  | "" => ""
  | String c s' => if isspace c then lstrip s' else s
  end.

Fixpoint rstrip (s : string) : string :=
  match s with
  | "" => ""
  | String c s' =>
      match rstrip s' with
      | "" => if isspace c then "" else String c ""
      | r => String c r
      end
  end.

Definition strip (s : string) : string := lstrip (rstrip s).

(** Truth value of a [str]: non-empty. *)
Definition truthy (s : string) : bool :=
  match s with "" => false | _ => true end.

Fixpoint startswith (s p : string) {struct p} : bool :=
  match p with
  | "" => true
  | String c p' =>
      match s with
      | "" => false
      | String d s' => Ascii.eqb d c && startswith s' p'
      end
  end.

Fixpoint endswith (s suf : string) : bool :=
  String.eqb s suf ||
  match s with
  | "" => false
  | String _ s' => endswith s' suf
  end.

(** [c in s] for a one-character [c]. *)
Fixpoint contains (c : ascii) (s : string) : bool :=
  match s with
  | "" => false
  | String d s' => Ascii.eqb d c || contains c s'
  end.

(** [s.split(sep)] for a one-character separator. *)
Fixpoint split (sep : ascii) (s : string) : list string :=
  match s with
  | "" => [""]
  | String c s' =>
      if Ascii.eqb c sep then "" :: split sep s'
      else match split sep s' with
           | h :: t => String c h :: t
           | [] => [String c ""]
           end
  end.

(** [l[0]]. *)
Definition item0 (l : list string) : result string :=
  match l with
  | h :: _ => Ok h
  | [] => Raise (IndexError "list index out of range")
  end.

(** [s[n:]] and [s[:n]] for [0 <= n]. *)
Fixpoint slice_from (n : nat) (s : string) : string :=
  match n, s with
  | O, _ => s
  | S n', String _ s' => slice_from n' s'
  | S _, "" => ""
  end.

Fixpoint slice_to (n : nat) (s : string) : string :=
  match n, s with
  | O, _ => ""
  | S n', String c s' => String c (slice_to n' s')
  | S _, "" => ""
  end.

(** [s[a:b]] for [0 <= a], [0 <= b]. *)
Definition slice (a b : nat) (s : string) : string :=
  slice_from a (slice_to b s).

Fixpoint find_aux (c : ascii) (s : string) (i : Z) : Z :=
  match s with
  | "" => (-1)%Z
  | String d s' => if Ascii.eqb d c then i else find_aux c s' (i + 1)%Z
  end.

(** [s.find(c, start)] for a one-character [c] and [0 <= start]. *)
Definition find (c : ascii) (s : string) (start : nat) : Z :=
  find_aux c (slice_from start s) (Z.of_nat start).

(** [s.replace(c, "")] for a one-character [c]. *)
Fixpoint remove_char (c : ascii) (s : string) : string :=
  match s with
  | "" => ""
  | String d s' =>
      if Ascii.eqb d c then remove_char c s' else String d (remove_char c s')
  end.

(** [s.partition(sep)] for a one-character separator: the text before
    the first separator, the separator when found, the text after it. *)
Fixpoint partition (sep : ascii) (s : string) : string * string * string :=
  match s with
  | "" => ("", "", "")
  | String c s' =>
      if Ascii.eqb c sep then ("", String sep "", s')
      else let '(a, m, b) := partition sep s' in (String c a, m, b)
  end.

(** [s.rpartition(sep)]: split at the last separator; when there is
    none, the whole text is the third component. *)
Fixpoint rpartition (sep : ascii) (s : string) : string * string * string :=
  match s with
  | "" => ("", "", "")
  | String c s' =>
      let '(a, m, b) := rpartition sep s' in
      match m with
      | "" => if Ascii.eqb c sep then ("", String sep "", s')
              else ("", "", String c b)
      | _ => (String c a, m, b)
      end
  end.

(** [str(n)] for an [int]. *)
Definition str_of_int (n : Z) : string :=
  NilZero.string_of_int (Z.to_int n).

(** *** Numbers *)

(** Rounding to the nearest integer, ties to the even one, as [round]
    does. *)
Definition round_half_even (x : Q) : Z :=
  let f := Qfloor x in
  match ((x - inject_Z f) ?= (1 # 2))%Q with
  | Lt => f
  | Gt => (f + 1)%Z
  | Eq => if Z.even f then f else (f + 1)%Z
  end.

(** [round(x, ndigits)] for [0 <= ndigits], in lowest terms. *)
Definition round (x : Q) (ndigits : nat) : Q :=
  let p := inject_Z (10 ^ Z.of_nat ndigits) in
  Qred (inject_Z (round_half_even (x * p)%Q) / p)%Q.

(** *** Values and dictionaries *)

(** The values stored in the result dictionaries. *)
Inductive pyval :=
| PStr (s : string)
| PFloat (x : Q).

(** [d[k]]. *)
Definition getitem (d : gmap string pyval) (k : string) : result pyval :=
  match d !! k with
  | Some v => Ok v
  | None => Raise (KeyError k)
  end.

End Py.

Export Py.

(* ===================================================================== *)
(** ** [urllib.parse]: the netloc and hostname of a URL *)
(* ===================================================================== *)

(** [urlparse(url).hostname] depends only on the network location that
    [urlsplit] cuts out of [url].  The functions below follow
    [urllib/parse.py]: [urlsplit] up to the point where [netloc] is
    final, then the [hostname] property of the result.

    Recent versions of the library validate the text between square
    brackets as an IP literal ([_check_bracketed_netloc]); older ones do
    not.  That check is a parameter of the section, so that every
    statement holds for each version. *)

Module UrlParse.
Section urlparse.

Variable _check_bracketed_netloc : string → result unit.

Definition isascii_alpha (c : ascii) : bool :=
  let n := ord c in
  ((65 <=? n) && (n <=? 90) || (97 <=? n) && (n <=? 122))%N.

Definition isdigit (c : ascii) : bool :=
  let n := ord c in ((48 <=? n) && (n <=? 57))%N.

(** [scheme_chars]: letters, digits and [+-.]. *)
Definition scheme_char (c : ascii) : bool :=
  isascii_alpha c || isdigit c
  || Ascii.eqb c "+" || Ascii.eqb c "-" || Ascii.eqb c ".".

Fixpoint all_chars (p : ascii → bool) (s : string) : bool :=
  match s with
  | "" => true
  | String c s' => p c && all_chars p s'
  end.

(** [_WHATWG_C0_CONTROL_OR_SPACE]: U+0000..U+0020. *)
Definition c0_control_or_space (c : ascii) : bool := (ord c <=? 32)%N.

Fixpoint lstrip_c0 (url : string) : string :=
  match url with
  | "" => ""
  | String c s' => if c0_control_or_space c then lstrip_c0 s' else url
  end.

(** [_UNSAFE_URL_BYTES_TO_REMOVE = ['\t', '\r', '\n']]. *)
Definition remove_unsafe (url : string) : string :=
  remove_char "010" (remove_char "013" (remove_char "009" url)).

(** The scheme test of [urlsplit]: with [i = url.find(':')], when
    [i > 0], the first character is an ASCII letter and [url[:i]]
    consists of scheme characters, the scheme is cut off and parsing
    goes on with [url[i+1:]]. *)
Definition strip_scheme (url : string) : string :=
  let i := find ":" url 0 in
  match url with
  | String c _ =>
      if (0 <? i)%Z && isascii_alpha c
         && all_chars scheme_char (slice_to (Z.to_nat i) url)
      then slice_from (Z.to_nat i + 1) url
      else url
  | "" => url
  end.

(** [_splitnetloc(url, start)]: the text from [start] to the first of
    [/], [?], [#] (or to the end), and the rest. *)
Definition _splitnetloc (url : string) (start : nat) : string * string :=
  let delim :=
    foldl (λ delim c,
             let wdelim := find c url start in
             if (0 <=? wdelim)%Z then Z.min delim wdelim else delim)
          (Z.of_nat (String.length url))
          ["/"; "?"; "#"]%char in
  (slice start (Z.to_nat delim) url, slice_from (Z.to_nat delim) url).

(** The network location computed by [urlsplit(url)]; the empty string
    when [url] has none.  [_checknetloc], which only inspects how
    non-ASCII text normalises, cannot fail on code points below 256 and
    is left out. *)
Definition urlsplit_netloc (url : string) : result string :=
  let url := remove_unsafe (lstrip_c0 url) in
  let url := strip_scheme url in
  if startswith url "//" then
    let '(netloc, _) := _splitnetloc url 2 in
    if contains "[" netloc && negb (contains "]" netloc)
       || contains "]" netloc && negb (contains "[" netloc)
    then Raise (ValueError "Invalid IPv6 URL")
    else if contains "[" netloc && contains "]" netloc
    then _ ← _check_bracketed_netloc netloc; Ok netloc
    else Ok netloc
  else Ok "".

(** [_hostinfo] of a parse result, first component. *)
Definition _hostinfo (netloc : string) : string :=
  let '(_, _, hostinfo) := rpartition "@" netloc in
  let '(_, have_open_br, bracketed) := partition "[" hostinfo in
  if truthy have_open_br
  then let '(hostname, _, _) := partition "]" bracketed in hostname
  else let '(hostname, _, _) := partition ":" hostinfo in hostname.

(** The [hostname] property: [None] for an empty host, else the host
    lower-cased up to a zone separator [%]. *)
Definition hostname_of_netloc (netloc : string) : option string :=
  let hostname := _hostinfo netloc in
  if negb (truthy hostname) then None
  else let '(hostname, percent, zone) := partition "%" hostname in
       Some (lower hostname +:+ percent +:+ zone).

(** [urlparse(url).hostname]. *)
Definition urlparse_hostname (url : string) : result (option string) :=
  netloc ← urlsplit_netloc url; Ok (hostname_of_netloc netloc).

End urlparse.
End UrlParse.

(* ===================================================================== *)
(** ** Target normalizer: [extract_clean_onion] *)
(* ===================================================================== *)

Module Normalizer.
Section normalizer.

Variable _check_bracketed_netloc : string → result unit.

(** Truth value of [hostname], which is a [str] or [None]. *)
Definition truthy_opt (h : option string) : bool :=
  match h with
  | Some s => truthy s
  | None => false
  end.

(** [hostname and hostname.endswith(".onion")]. *)
Definition accepted (h : option string) : bool :=
  match h with
  | Some s => truthy s && endswith s ".onion"
  | None => false
  end.

Definition extract_clean_onion (raw : string) : result (option string) :=
  let raw := lower (strip raw) in
  if negb (truthy raw) then Ok None
  else
    hostname ←
      (if startswith raw "http://" || startswith raw "https://"
       then UrlParse.urlparse_hostname _check_bracketed_netloc raw
       else h ← item0 (split "/" raw); Ok (Some h));
    Ok (if accepted hostname then hostname else None).

End normalizer.
End Normalizer.

(* ===================================================================== *)
(** ** Ingestion: the three loaders *)
(* ===================================================================== *)

(** The loaders read a file and hand every line, cell or column value to
    [extract_clean_onion].  Their input here is what the file access
    yields: the lines of [readlines()], the rows of [csv.reader], the
    rows of [fetchall()].  The elements collected are Python values that
    are a [str] or [None], hence [option string].

    [list(s)] enumerates a set in an order the language leaves open; it
    is a parameter, constrained to enumerate exactly the elements. *)

Module Loaders.

(** A value of an SQLite column as [sqlite3] returns it. *)
Inductive sql_value :=
| SqlNull
| SqlInteger (n : Z)
| SqlReal (x : Q)
| SqlText (s : string)
| SqlBlob (b : string).

Section loaders.

Variable _check_bracketed_netloc : string → result unit.
Variable list_of_set : gset (option string) → list (option string).

Local Abbreviation extract_clean_onion :=
  (Normalizer.extract_clean_onion _check_bracketed_netloc).

(** [bytes.strip()] removes ASCII whitespace only. *)
Definition isspace_bytes (c : ascii) : bool :=
  let n := ord c in ((9 <=? n) && (n <=? 13) || (n =? 32))%N.

(** [extract_clean_onion(row[0])] for a database value.  [None] and
    numbers have no [strip]; a blob passes [strip] and [lower], is
    returned as no target when nothing is left, and otherwise fails in
    [startswith], which rejects a [str] argument on [bytes]. *)
Definition extract_clean_onion_value (v : sql_value)
  : result (option string) :=
  match v with
  | SqlText s => extract_clean_onion s
  | SqlNull =>
      Raise (AttributeError "'NoneType' object has no attribute 'strip'")
  | SqlInteger _ =>
      Raise (AttributeError "'int' object has no attribute 'strip'")
  | SqlReal _ =>
      Raise (AttributeError "'float' object has no attribute 'strip'")
  | SqlBlob b =>
      if UrlParse.all_chars isspace_bytes b then Ok None
      else Raise (TypeError
        "startswith first arg must be bytes or a tuple of bytes, not str")
  end.

(** The set comprehension of [load_onions_from_txt]: the condition and
    the element each call [extract_clean_onion]. *)
Fixpoint txt_comprehension (lines : list string)
    (acc : gset (option string)) : result (gset (option string)) :=
  match lines with
  | [] => Ok acc
  | line :: rest =>
      c ← extract_clean_onion line;
      if Normalizer.truthy_opt c
      then v ← extract_clean_onion line; txt_comprehension rest ({[v]} ∪ acc)
      else txt_comprehension rest acc
  end.

Definition load_onions_from_txt (lines : list string)
  : result (list (option string)) :=
  s ← txt_comprehension lines ∅; Ok (list_of_set s).

(** The inner loop of [load_onions_from_csv], over the cells of a row. *)
Fixpoint csv_cells (row : list string) (onions : gset (option string))
  : result (gset (option string)) :=
  match row with
  | [] => Ok onions
  | cell :: rest =>
      url ← extract_clean_onion cell;
      csv_cells rest
        (if Normalizer.truthy_opt url then {[url]} ∪ onions else onions)
  end.

(** The outer loop, over the rows. *)
Fixpoint csv_rows (rows : list (list string))
    (onions : gset (option string)) : result (gset (option string)) :=
  match rows with
  | [] => Ok onions
  | row :: rest => onions' ← csv_cells row onions; csv_rows rest onions'
  end.

Definition load_onions_from_csv (rows : list (list string))
  : result (list (option string)) :=
  onions ← csv_rows rows ∅; Ok (list_of_set onions).

(** The loop of [load_onions_from_sqlite] over [cursor.fetchall()];
    each row is reduced to its only column, [row[0]]. *)
Fixpoint sqlite_rows (rows : list sql_value)
    (onions : gset (option string)) : result (gset (option string)) :=
  match rows with
  | [] => Ok onions
  | v :: rest =>
      url ← extract_clean_onion_value v;
      sqlite_rows rest
        (if Normalizer.truthy_opt url then {[url]} ∪ onions else onions)
  end.

Definition load_onions_from_sqlite (rows : list sql_value)
  : result (list (option string)) :=
  onions ← sqlite_rows rows ∅; Ok (list_of_set onions).

End loaders.
End Loaders.

(* ===================================================================== *)
(** ** Probe executor: [check_onion] *)
(* ===================================================================== *)

Module Probe.

Definition TIMEOUT : Z := 10.

(** What [requests.get] does for one URL: it returns a response, of
    which the script reads [status_code], or it raises. *)
Inductive get_outcome :=
| Response (status_code : Z)
| Fails (e : exn).

(** The environment of one call of [check_onion]: the two readings of
    [time.perf_counter()] and the behaviour of the request. *)
Record probe_env := {
  t_start : Q;
  t_end : Q;
  requests_get : get_outcome
}.

(** The network, as seen through the proxy: the environment of the
    request for each full URL. *)
Definition world := string → probe_env.

Section check_onion.

Variable net : world.

Definition check_onion (url : string) : result (gmap string pyval) :=
  let full_url := "http://" +:+ url in
  let env := net full_url in
  let start := t_start env in
  match requests_get env with
  | Response status_code =>
      let duration := round (t_end env - start)%Q 2 in
      if (status_code =? 200)%Z
      then Ok (<["response_time" := PFloat duration]>
               (<["status" := PStr "ONLINE"]>
                (<["url" := PStr url]> ∅)))
      else Ok (<["response_time" := PFloat duration]>
               (<["status" := PStr ("ERROR " +:+ str_of_int status_code)]>
                (<["url" := PStr url]> ∅)))
  | Fails e =>
      if isinstance_Exception e
      then let duration := round (t_end env - start)%Q 2 in
           Ok (<["response_time" := PFloat duration]>
               (<["status" := PStr "OFFLINE"]>
                (<["url" := PStr url]> ∅)))
      else Raise e
  end.

End check_onion.

(** The shape of the three dictionary literals of [check_onion]. *)
Definition fields (url st : string) (x : Q) : gmap string pyval :=
  <["response_time" := PFloat x]>
    (<["status" := PStr st]> (<["url" := PStr url]> ∅)).

(** Every fault of the network is an instance of [Exception], as the
    exceptions of [requests] are. *)
Definition faults_are_exceptions (net : world) : Prop :=
  ∀ full_url e,
    requests_get (net full_url) = Fails e → isinstance_Exception e = true.

End Probe.

(* ===================================================================== *)
(** ** Dispatch: the thread pool and the completion loop of [main] *)
(* ===================================================================== *)

(** [main] submits one call of [check_onion] per URL to a
    [ThreadPoolExecutor(max_workers=MAX_THREADS)] and appends the result
    of every future to [results] as [as_completed] yields it.

    The executor belongs to the library [concurrent.futures], not to
    the script; it is modelled here as a transition system.  A work item
    waits in the queue until a worker takes it; a worker exists for an
    item only while fewer than [max_workers] items are being executed;
    an executing item finishes at any time; the main thread, once
    everything is submitted, takes any finished future, and
    [future.result()] returns its value or raises what the call raised.
    A schedule is a list of events; the interleavings of the program are
    the schedules that can be run.

    The guard of [Start] and the order in which waiting items start are
    taken from the library, and [Start] makes one event of a worker
    taking an item and beginning the call.  The statements below are
    about what the loop of [main] does with the futures; none of them
    bounds the number of calls in execution or fixes the order in which
    calls begin. *)

Module Pool.

Definition MAX_THREADS : nat := 50.

Record pool_state := {
  unsubmitted : list string;
  queue : list string;
  running : list string;
  finished : list (result (gmap string pyval));
  results : list (gmap string pyval);
  raised : option exn;
  (** Instrumentation: the arguments of the calls started so far. *)
  started : list string
}.

Inductive event :=
| Submit
| Start
| Finish (i : nat)
| Yield (i : nat).

Section pool.

Variable max_workers : nat.
Variable fn : string → result (gmap string pyval).

Definition init (onion_urls : list string) : pool_state :=
  {| unsubmitted := onion_urls; queue := []; running := [];
     finished := []; results := []; raised := None; started := [] |}.

Definition step (e : event) (s : pool_state) : option pool_state :=
  match e with
  | Submit =>
      match unsubmitted s with
      | url :: rest =>
          Some {| unsubmitted := rest; queue := queue s ++ [url];
                  running := running s; finished := finished s;
                  results := results s; raised := raised s;
                  started := started s |}
      | [] => None
      end
  | Start =>
      match queue s with
      | url :: rest =>
          if decide (length (running s) < max_workers)
          then Some {| unsubmitted := unsubmitted s; queue := rest;
                       running := running s ++ [url];
                       finished := finished s; results := results s;
                       raised := raised s;
                       started := started s ++ [url] |}
          else None
      | [] => None
      end
  | Finish i =>
      match running s !! i with
      | Some url =>
          Some {| unsubmitted := unsubmitted s; queue := queue s;
                  running := delete i (running s);
                  finished := finished s ++ [fn url];
                  results := results s; raised := raised s;
                  started := started s |}
      | None => None
      end
  | Yield i =>
      match unsubmitted s, raised s, finished s !! i with
      | [], None, Some (Ok result) =>
          Some {| unsubmitted := []; queue := queue s;
                  running := running s;
                  finished := delete i (finished s);
                  results := results s ++ [result]; raised := None;
                  started := started s |}
      | [], None, Some (Raise e) =>
          Some {| unsubmitted := []; queue := queue s;
                  running := running s;
                  finished := delete i (finished s);
                  results := results s; raised := Some e;
                  started := started s |}
      | _, _, _ => None
      end
  end.

Fixpoint run (schedule : list event) (s : pool_state)
  : option pool_state :=
  match schedule with
  | [] => Some s
  | e :: rest =>
      match step e s with
      | Some s' => run rest s'
      | None => None
      end
  end.

(** The states of the runs on [onion_urls]. *)
Definition reachable (onion_urls : list string) (s : pool_state) : Prop :=
  ∃ schedule, run schedule (init onion_urls) = Some s.

(** The loop over [as_completed] has ended: every future was yielded. *)
Definition loop_done (s : pool_state) : bool :=
  match unsubmitted s, queue s, running s, finished s with
  | [], [], [], [] => true
  | _, _, _, _ => false
  end.

(** The schedule that runs the calls one after the other. *)
Fixpoint sequential (onion_urls : list string) : list event :=
  match onion_urls with
  | [] => []
  | _ :: rest => Start :: Finish 0 :: sequential rest
  end.

Definition sequential_schedule (onion_urls : list string) : list event :=
  (onion_urls ≫= λ _, [Submit]) ++ sequential onion_urls
  ++ (onion_urls ≫= λ _, [Yield 0]).

(** Book-keeping for the proofs.  [account] lists the outcome of every
    call wherever it currently is: not yet made, held by a finished
    future, appended to [results], or raised in the main thread. *)
Definition raised_list (s : pool_state)
  : list (result (gmap string pyval)) :=
  match raised s with
  | Some e => [Raise e]
  | None => []
  end.

Definition account (s : pool_state) : list (result (gmap string pyval)) :=
  (fn <$> unsubmitted s) ++ (fn <$> queue s) ++ (fn <$> running s)
  ++ finished s ++ (Ok <$> results s) ++ raised_list s.

(** The number of events a state can still take part in. *)
Definition weight (s : pool_state) : nat :=
  4 * length (unsubmitted s) + 3 * length (queue s)
  + 2 * length (running s) + length (finished s).

(** Nothing was raised in the main thread, and no call, made or still
    to be made, ends with an exception. *)
Definition healthy (s : pool_state) : Prop :=
  raised s = None ∧ Forall returns (account s).

End pool.
End Pool.

(* ===================================================================== *)
(** ** Aggregation: the end of [main] *)
(* ===================================================================== *)

Module Report.

Record report := {
  outcomes : list (gmap string pyval);
  avg_time : Q
}.

(** [sum(r["response_time"] for r in results)], from the start value
    [0]. *)
Fixpoint sum_response_time (results : list (gmap string pyval)) (acc : Q)
  : result Q :=
  match results with
  | [] => Ok acc
  | r :: rest =>
      v ← getitem r "response_time";
      match v with
      | PFloat x => sum_response_time rest (acc + x)%Q
      | PStr _ =>
          Raise (TypeError "unsupported operand type(s) for +")
      end
  end.

(** [round(sum(...) / len(results), 2)], in exact arithmetic.  The
    script adds and divides binary floats: where the exact mean lies at
    (or next to) a decimal tie, such as 0.015 for 0.01 and 0.02, its
    result can differ from this one by a hundredth. *)
Definition average (results : list (gmap string pyval)) : result Q :=
  total ← sum_response_time results 0%Q;
  match length results with
  | O => Raise (ZeroDivisionError "division by zero")
  | n => Ok (round (total / inject_Z (Z.of_nat n))%Q 2)
  end.

(** [main] from the point where the URLs are loaded, under a schedule
    of the pool.  The answer is [None] when the schedule is not a
    complete run; otherwise it is what [main] computes, or the
    exception it ends with.  Console output and the two files written
    from [results] are outside the model. *)
Definition main (net : Probe.world) (onion_urls : list string)
    (schedule : list Pool.event) : option (result report) :=
  s ← Pool.run Pool.MAX_THREADS (Probe.check_onion net) schedule
        (Pool.init onion_urls);
  match Pool.raised s with
  | Some e => Some (Raise e)
  | None =>
      if Pool.loop_done s
      then Some (avg ← average (Pool.results s);
                 Ok {| outcomes := Pool.results s; avg_time := avg |})
      else None
  end.

End Report.


(* ===================================================================== *)
(** ** The data model of the specification *)
(* ===================================================================== *)

(** The specification describes an outcome as a target, a status out of
    [ONLINE], [OFFLINE] and [REMOTE_ERROR(code)], and an elapsed time.
    The definitions of this module follow its words; they read a result
    dictionary of the script as such an outcome. *)

Module Spec.

Inductive status :=
| ONLINE
| OFFLINE
| REMOTE_ERROR (code : Z).

Record probe_outcome := {
  target : string;
  outcome_status : status;
  elapsed : Q
}.

(** The status a status text stands for. *)
Definition status_of_string (s : string) : option status :=
  if String.eqb s "ONLINE" then Some ONLINE
  else if String.eqb s "OFFLINE" then Some OFFLINE
  else if startswith s "ERROR "
  then code ← NilZero.int_of_string (slice_from 6 s);
       Some (REMOTE_ERROR (Z.of_int code))
  else None.

(** The outcome a result dictionary stands for. *)
Definition outcome_of_dict (d : gmap string pyval) : option probe_outcome :=
  match d !! "url", d !! "status", d !! "response_time" with
  | Some (PStr u), Some (PStr st), Some (PFloat x) =>
      st' ← status_of_string st;
      Some {| target := u; outcome_status := st'; elapsed := x |}
  | _, _, _ => None
  end.

(** [x] is [measured] rounded to two decimal places: a whole number of
    hundredths, in lowest terms, at most half a hundredth away. *)
Definition rounded_to_hundredths (x measured : Q) : Prop :=
  ∃ k : Z, x = Qred (k # 100) ∧ (Qabs (x - measured) <= 1 # 200)%Q.

(** The text before the first occurrence of [sep], the whole text when
    there is none. *)
Fixpoint before_first (sep : ascii) (s : string) : string :=
  match s with
  | "" => ""
  | String c s' => if Ascii.eqb c sep then "" else String c (before_first sep s')
  end.

(** A URL in the generic syntax
    [scheme://[userinfo@]host[:port][tail]]; [tail] stands for the
    path, the query and the fragment. *)
Record url := {
  scheme : string;
  userinfo : option string;
  host : string;
  port : option string;
  tail : string
}.



(** Tab, line feed and carriage return, which have no place in a URL. *)
Definition unsafe (c : ascii) : bool :=
  Ascii.eqb c "009" || Ascii.eqb c "010" || Ascii.eqb c "013".

(** The characters of an authority: none of [/], [?], [#], which end
    it, and no square bracket, which encloses an IP literal.  The user
    information has no [@], and the host has no [:] either. *)
Definition authority_char (c : ascii) : bool :=
  negb (contains c "/?#[]") && negb (unsafe c).






(** A target: a non-empty hostname that ends in [.onion]. *)
Definition is_target (h : string) : Prop :=
  h ≠ "" ∧ ∃ p, h = p +:+ ".onion".

(** A list of Python values that consists of pairwise different
    targets. *)
Definition distinct_targets (l : list (option string)) : Prop :=
  ∃ targets : list string,
    l = Some <$> targets ∧ NoDup targets ∧ Forall is_target targets.

(** The [url] entry of the dictionary a call returned. *)
Definition url_entry (r : result (gmap string pyval)) : option pyval :=
  match r with
  | Ok d => d !! "url"
  | Raise _ => None
  end.

(** A set of Python values that holds targets only. *)
Definition targets_only (s : gset (option string)) : Prop :=
  ∀ v, v ∈ s → ∃ h, v = Some h ∧ is_target h.

(** A result dictionary with a number under [response_time]. *)
Definition has_response_time (d : gmap string pyval) : Prop :=
  ∃ x, d !! "response_time" = Some (PFloat x).

(** The arithmetic mean of a non-empty list. *)
Definition arithmetic_mean (l : list Q) : Q :=
  (foldr Qplus 0 l / inject_Z (Z.of_nat (length l)))%Q.

(** The elapsed times recorded in a list of result dictionaries. *)
Definition durations (results : list (gmap string pyval)) : list Q :=
  omap (λ d, match d !! "response_time" with
             | Some (PFloat x) => Some x
             | _ => None
             end) results.

End Spec.

(* ===================================================================== *)
(** ** Sample inputs *)
(* ===================================================================== *)

Module Examples.

(** A version of the URL parser without the check of bracketed hosts. *)
Definition no_bracket_check : string → result unit := λ _, Ok tt.

(** A network in which [abc.onion] answers with status 200 after half
    a second, [xyz.onion] times out after ten seconds, and every other
    host answers with status 404. *)
Definition net : Probe.world := λ full_url,
  if String.eqb full_url "http://abc.onion"
  then {| Probe.t_start := 3; Probe.t_end := 7 # 2;
          Probe.requests_get := Probe.Response 200 |}
  else if String.eqb full_url "http://xyz.onion"
  then {| Probe.t_start := 1; Probe.t_end := 11;
          Probe.requests_get := Probe.Fails (RequestException Timeout) |}
  else {| Probe.t_start := 0; Probe.t_end := 1 # 3;
          Probe.requests_get := Probe.Response 404 |}.

Definition three_targets : list string :=
  ["abc.onion"; "xyz.onion"; "def.onion"].

(** Three calls on two workers: the third one starts when the second
    has finished, and the futures are yielded out of order. *)
Definition interleaved : list Pool.event :=
  [Pool.Submit; Pool.Submit; Pool.Start; Pool.Submit; Pool.Start;
   Pool.Finish 1; Pool.Start; Pool.Yield 0; Pool.Finish 0; Pool.Finish 0;
   Pool.Yield 1; Pool.Yield 0].

End Examples.

(* ===================================================================== *)
(** ** Further definitions for the statements below *)
(* ===================================================================== *)

Module Extra.

Definition nonspace (c : ascii) : bool := negb (isspace c).

(** The characters of a plain host name: lower-case ASCII letters,
    digits, [.] and [-]. *)
Definition plain_host_char (c : ascii) : bool :=
  let n := ord c in
  ((97 <=? n) && (n <=? 122) || (48 <=? n) && (n <=? 57)
   || (n =? 46) || (n =? 45))%N.

(** A character that [str.lower] leaves as it is. *)
Definition lower_fixed (c : ascii) : bool := Ascii.eqb (lower_char c) c.

(** The common shape of the loops of the loaders: every item is
    normalized by [f], and what is a target is added to the set. *)
Fixpoint collect {A} (f : A → result (option string)) (xs : list A)
    (acc : gset (option string)) : result (gset (option string)) :=
  match xs with
  | [] => Ok acc
  | x :: rest =>
      url ← f x;
      collect f rest
        (if Normalizer.truthy_opt url then {[url]} ∪ acc else acc)
  end.

(** Two loaders end alike: with the same exception, or with lists that
    have the same elements. *)
Definition same_outcome (r r' : result (list (option string))) : Prop :=
  match r, r' with
  | Ok l, Ok l' => l ≡ₚ l'
  | Raise e, Raise e' => e = e'
  | _, _ => False
  end.

(** A network in which the request for [xyz.onion] is interrupted. *)
Definition interrupted_net : Probe.world := λ full_url,
  if String.eqb full_url "http://xyz.onion"
  then {| Probe.t_start := 1; Probe.t_end := 2;
          Probe.requests_get := Probe.Fails KeyboardInterrupt |}
  else {| Probe.t_start := 0; Probe.t_end := 1 # 3;
          Probe.requests_get := Probe.Response 200 |}.

End Extra.

(* ===================================================================== *)
(** ** Choice of the loader: [load_onion_urls] *)
(* ===================================================================== *)

(** [load_onion_urls] takes the extension of the configured file name
    with [os.path.splitext] and calls the loader for it.  [splitext] is
    [genericpath._splitext] with the separators of the platform, which
    are parameters here, as are the configured file name and what
    reading the file in each of the three ways yields. *)

Module Ingest.

Definition SQLITE_TABLE : string := "onions".
Definition SQLITE_COLUMN : string := "url".

(** [s.rfind(c)] for a one-character [c]: the highest index of [c], or
    -1. *)
Fixpoint rfind_aux (c : ascii) (s : string) (i : Z) : Z :=
  match s with
  | "" => (-1)%Z
  | String d s' =>
      let r := rfind_aux c s' (i + 1)%Z in
      if (0 <=? r)%Z then r else if Ascii.eqb d c then i else (-1)%Z
  end.

Definition rfind (c : ascii) (s : string) : Z := rfind_aux c s 0.

(** The loop of [genericpath._splitext] that skips the leading dots of
    the file name; [fuel] is the number of indices left below
    [dotIndex]. *)
Fixpoint _splitext_loop (p : string) (extsep : ascii)
    (filenameIndex dotIndex fuel : nat) : string * string :=
  match fuel with
  | O => (p, "")
  | S fuel' =>
      if (filenameIndex <? dotIndex)%nat
      then if negb (String.eqb (slice filenameIndex (filenameIndex + 1) p)
                      (String extsep ""))
           then (slice_to dotIndex p, slice_from dotIndex p)
           else _splitext_loop p extsep (filenameIndex + 1) dotIndex fuel'
      else (p, "")
  end.

(** [genericpath._splitext(p, sep, altsep, extsep)]. *)
Definition _splitext (p : string) (sep : ascii) (altsep : option ascii)
    (extsep : ascii) : string * string :=
  let sepIndex := rfind sep p in
  let sepIndex :=
    match altsep with
    | Some a => Z.max sepIndex (rfind a p)
    | None => sepIndex
    end in
  let dotIndex := rfind extsep p in
  if (sepIndex <? dotIndex)%Z
  then let filenameIndex := Z.to_nat (sepIndex + 1) in
       _splitext_loop p extsep filenameIndex (Z.to_nat dotIndex)
         (Z.to_nat dotIndex - filenameIndex)
  else (p, "").

Section load_onion_urls.

(** The separators of the platform: [os.sep] and [os.altsep]. *)
Variable os_sep : ascii.
Variable os_altsep : option ascii.

(** The configured input file, and what reading it yields. *)
Variable INPUT_FILE : string.
Variable readlines : string → list string.
Variable csv_reader : string → list (list string).
Variable fetchall : string → string → string → list Loaders.sql_value.

Variable _check_bracketed_netloc : string → result unit.
Variable list_of_set : gset (option string) → list (option string).

(** [os.path.splitext]. *)
Definition splitext (p : string) : string * string :=
  _splitext p os_sep os_altsep ".".

Definition load_onion_urls : result (list (option string)) :=
  let ext := lower (splitext INPUT_FILE).2 in
  if String.eqb ext ".txt"
  then Loaders.load_onions_from_txt _check_bracketed_netloc list_of_set
         (readlines INPUT_FILE)
  else if String.eqb ext ".csv"
  then Loaders.load_onions_from_csv _check_bracketed_netloc list_of_set
         (csv_reader INPUT_FILE)
  else if String.eqb ext ".sqlite"
  then Loaders.load_onions_from_sqlite _check_bracketed_netloc list_of_set
         (fetchall INPUT_FILE SQLITE_TABLE SQLITE_COLUMN)
  else Raise (ValueError
         "Unsupported input format. Use .txt, .csv, or .sqlite").

(** No separator of the platform occurs in [name]. *)
Definition no_separator (name : string) : Prop :=
  contains os_sep name = false
  ∧ ∀ a, os_altsep = Some a → contains a name = false.

End load_onion_urls.

(** The extension separator. *)
Definition is_dot (c : ascii) : bool := Ascii.eqb c ".".

End Ingest.

(* ===================================================================== *)
(** ** Properties of the Python fragment *)
(* ===================================================================== *)

Section py_facts.

Lemma round_half_even_near (y : Q) :
  (Qabs (inject_Z (round_half_even y) - y) <= 1 # 2)%Q.
Proof.
  unfold round_half_even.
  pose proof (Qfloor_le y) as Hlo. pose proof (Qlt_floor y) as Hhi.
  rewrite inject_Z_plus in Hhi.
  set (f := Qfloor y) in *.
  apply Qabs_case; intros _;
    destruct (Qcompare_spec (y - inject_Z f) (1 # 2)) as [He|Hl|Hg];
    try destruct (Z.even f); rewrite ?inject_Z_plus; try lra.
  all: change (inject_Z 1) with 1%Q; try lra.
Qed.

Lemma round_hundredths (x : Q) :
  round x 2 = Qred (round_half_even (x * 100) # 100).
Proof.
  unfold round. apply Qred_complete.
  change (inject_Z (10 ^ Z.of_nat 2)) with (inject_Z 100).
  set (n := round_half_even _).
  unfold Qeq, Qdiv, Qmult, Qinv, inject_Z; simpl. lia.
Qed.

Lemma round_2_near (x : Q) : (Qabs (round x 2 - x) <= 1 # 200)%Q.
Proof.
  rewrite round_hundredths, Qred_correct.
  pose proof (round_half_even_near (x * 100)) as H.
  set (n := round_half_even _) in *.
  assert (E : ((n # 100) - x == (inject_Z n - x * 100) / 100)%Q).
  { unfold Qeq, Qdiv, Qminus, Qplus, Qmult, Qinv, Qopp, inject_Z; simpl.
    destruct x as [a b]; simpl. lia. }
  rewrite E. unfold Qdiv. rewrite Qabs_Qmult.
  change (Qabs (/ 100)) with (1 # 100)%Q. lra.
Qed.

Lemma round_2_rounded (x : Q) : Spec.rounded_to_hundredths (round x 2) x.
Proof.
  exists (round_half_even (x * 100)). split.
  - apply round_hundredths.
  - apply round_2_near.
Qed.

(** [round] does not depend on the representation of its argument. *)
Lemma round_half_even_compat (x y : Q) :
  (x == y)%Q → round_half_even x = round_half_even y.
Proof.
  intros E. unfold round_half_even.
  rewrite (Qfloor_comp _ _ E).
  assert (E' : (x - inject_Z (Qfloor y) == y - inject_Z (Qfloor y))%Q)
    by (rewrite E; reflexivity).
  rewrite (Qcompare_comp _ _ E' (1 # 2)%Q (1 # 2)%Q (Qeq_refl _)).
  reflexivity.
Qed.

Lemma round_compat (x y : Q) (n : nat) : (x == y)%Q → round x n = round y n.
Proof.
  intros E. unfold round. cbv zeta.
  f_equal. f_equal. f_equal.
  apply round_half_even_compat. rewrite E. reflexivity.
Qed.

End py_facts.

(* ===================================================================== *)
(** ** The probe executor *)
(* ===================================================================== *)

Section probe_facts.

Import Probe.

Lemma fields_lookup url st x :
  fields url st x !! "url" = Some (PStr url)
  ∧ fields url st x !! "status" = Some (PStr st)
  ∧ fields url st x !! "response_time" = Some (PFloat x).
Proof. unfold fields. by simplify_map_eq. Qed.

Lemma fields_dom url st x :
  dom (fields url st x) = ({["url"; "status"; "response_time"]} : gset string).
Proof. unfold fields. rewrite !dom_insert_L, dom_empty_L. set_solver. Qed.

(** [check_onion], one case per path through its body. *)
Lemma check_onion_unfold (net : world) (url : string) :
  let env := net ("http://" +:+ url) in
  let duration := round (t_end env - t_start env)%Q 2 in
  check_onion net url =
  match requests_get env with
  | Response c =>
      Ok (fields url (if (c =? 200)%Z then "ONLINE"
                      else "ERROR " +:+ str_of_int c) duration)
  | Fails e =>
      if isinstance_Exception e then Ok (fields url "OFFLINE" duration)
      else Raise e
  end.
Proof.
  unfold check_onion, fields. cbv zeta.
  destruct (requests_get _) as [c|e]; [|reflexivity].
  by destruct (c =? 200)%Z.
Qed.

Lemma str_of_int_roundtrip (c : Z) :
  NilZero.int_of_string (str_of_int c) = Some (Z.to_int c).
Proof.
  unfold str_of_int. apply NilZero.isi.
  - destruct c; simpl; [discriminate| |discriminate].
    intros [= E]. by apply DecimalPos.Unsigned.to_uint_nonnil in E.
  - destruct c; simpl; [discriminate|discriminate|].
    intros [= E]. by apply DecimalPos.Unsigned.to_uint_nonnil in E.
Qed.

(** The status text of a remote error carries the status code. *)
Lemma status_of_string_error (c : Z) :
  Spec.status_of_string ("ERROR " +:+ str_of_int c)
  = Some (Spec.REMOTE_ERROR c).
Proof.
  unfold Spec.status_of_string.
  change ("ERROR " +:+ str_of_int c) with
    (String "E" (String "R" (String "R" (String "O" (String "R"
       (String " " (str_of_int c))))))).
  cbn [String.eqb Ascii.eqb Bool.eqb startswith slice_from andb].
  rewrite str_of_int_roundtrip. simpl.
  by rewrite DecimalZ.of_to.
Qed.

Lemma outcome_of_fields url st st' x :
  Spec.status_of_string st = Some st' →
  Spec.outcome_of_dict (fields url st x)
  = Some {| Spec.target := url; Spec.outcome_status := st';
            Spec.elapsed := x |}.
Proof.
  intros E. unfold Spec.outcome_of_dict.
  destruct (fields_lookup url st x) as (-> & -> & ->).
  by rewrite E.
Qed.

(** C2.  [check_onion] classifies the request: a response with status
    code 200, the success code of the script, gives ONLINE; a response
    with any other code gives REMOTE_ERROR with that code; a failure of
    the request that is an [Exception] gives OFFLINE.  In each case the
    target is the argument and the elapsed time is the measured
    duration rounded to two decimal places.  An exception that is not
    an [Exception] is not classified: it is raised again. *)
Theorem check_onion_classification (net : world) (url : string) :
  let env := net ("http://" +:+ url) in
  let measured := (t_end env - t_start env)%Q in
  Spec.rounded_to_hundredths (round measured 2) measured
  ∧ match requests_get env with
    | Response status_code =>
        ∃ d, check_onion net url = Ok d
          ∧ Spec.outcome_of_dict d
            = Some {| Spec.target := url;
                      Spec.outcome_status :=
                        if (status_code =? 200)%Z then Spec.ONLINE
                        else Spec.REMOTE_ERROR status_code;
                      Spec.elapsed := round measured 2 |}
    | Fails e =>
        if isinstance_Exception e
        then ∃ d, check_onion net url = Ok d
               ∧ Spec.outcome_of_dict d
                 = Some {| Spec.target := url;
                           Spec.outcome_status := Spec.OFFLINE;
                           Spec.elapsed := round measured 2 |}
        else check_onion net url = Raise e
    end.
Proof.
  intros env measured. split; [apply round_2_rounded|].
  rewrite check_onion_unfold. fold env. fold measured.
  destruct (requests_get env) as [c|e].
  - eexists; split; [reflexivity|].
    apply outcome_of_fields.
    destruct (c =? 200)%Z; [reflexivity|apply status_of_string_error].
  - destruct (isinstance_Exception e); [|reflexivity].
    eexists; split; [reflexivity|]. by apply outcome_of_fields.
Qed.

(** The shape of a returned dictionary, for use in later proofs. *)
Lemma check_onion_ok_fields (net : world) (url : string)
    (d : gmap string pyval) :
  check_onion net url = Ok d →
  d !! "url" = Some (PStr url)
  ∧ (∃ x, d !! "response_time" = Some (PFloat x)).
Proof.
  rewrite check_onion_unfold. cbv zeta.
  destruct (requests_get _) as [c|e];
    [|destruct (isinstance_Exception e); [|discriminate]];
    intros [= <-];
    (split; [apply fields_lookup|eexists; apply fields_lookup]).
Qed.

(** C10.  The dictionary returned for a target holds that target,
    unchanged, under [url], and has exactly the keys [url], [status]
    and [response_time]; the status is a text and the response time a
    number. *)
Theorem check_onion_fields (net : world) (url : string)
    (d : gmap string pyval) :
  check_onion net url = Ok d →
  d !! "url" = Some (PStr url)
  ∧ dom d = ({["url"; "status"; "response_time"]} : gset string)
  ∧ (∃ st, d !! "status" = Some (PStr st))
  ∧ (∃ x, d !! "response_time" = Some (PFloat x)).
Proof.
  rewrite check_onion_unfold. cbv zeta.
  destruct (requests_get _) as [c|e];
    [|destruct (isinstance_Exception e); [|discriminate]];
    intros [= <-];
    (split; [apply fields_lookup|]);
    (split; [apply fields_dom|]);
    (split; eexists; apply fields_lookup).
Qed.

(** A probe returns whenever the fault of its request, if any, is an
    [Exception]. *)
Lemma check_onion_returns (net : world) (url : string) :
  faults_are_exceptions net → returns (check_onion net url).
Proof.
  intros Hnet. rewrite check_onion_unfold. cbv zeta.
  destruct (requests_get _) as [c|e] eqn:E; [by eexists|].
  rewrite (Hnet _ _ E). by eexists.
Qed.

End probe_facts.

(* ===================================================================== *)
(** ** The target normalizer *)
(* ===================================================================== *)

Section normalizer_facts.

Import Normalizer.

Variable _check_bracketed_netloc : string → result unit.

Local Abbreviation extract_clean_onion :=
  (Normalizer.extract_clean_onion _check_bracketed_netloc).

Lemma endswith_app (p suf : string) : endswith (p +:+ suf) suf = true.
Proof.
  induction p as [|c p IH]; simpl.
  - destruct suf; simpl; [reflexivity|].
    by rewrite Ascii.eqb_refl, String.eqb_refl.
  - change (String c p +:+ suf) with (String c (p +:+ suf)).
    simpl. rewrite IH. apply orb_true_r.
Qed.

Lemma endswith_spec (s suf : string) :
  endswith s suf = true ↔ ∃ p, s = p +:+ suf.
Proof.
  split.
  - induction s as [|c s IH]; cbn [endswith].
    + rewrite orb_false_r. intros E%String.eqb_eq. by exists "".
    + intros [E%String.eqb_eq|E]%orb_true_iff.
      * by exists "".
      * destruct (IH E) as [p ->]. by exists (String c p).
  - intros [p ->]. apply endswith_app.
Qed.

(** [raw.split("/")[0]] is the text before the first [/]. *)
Lemma split_item0 (sep : ascii) (s : string) :
  item0 (split sep s) = Ok (Spec.before_first sep s).
Proof.
  induction s as [|c s IH]; simpl; [reflexivity|].
  destruct (Ascii.eqb c sep); [reflexivity|].
  destruct (split sep s) as [|h t]; [discriminate|].
  simpl in IH. injection IH as ->. reflexivity.
Qed.

(** The body of [extract_clean_onion] with the early return folded
    in, for use in later proofs. *)
Lemma extract_clean_onion_unfold (raw : string) :
  let s := lower (strip raw) in
  extract_clean_onion raw =
    hostname ←
      (if startswith s "http://" || startswith s "https://"
       then UrlParse.urlparse_hostname _check_bracketed_netloc s
       else Ok (Some (Spec.before_first "/" s)));
    Ok (if accepted hostname then hostname else None).
Proof.
  intros s. unfold Normalizer.extract_clean_onion. fold s.
  destruct s as [|c s'] eqn:E; [reflexivity|].
  cbn [truthy negb].
  destruct (startswith _ "http://" || startswith _ "https://");
    [reflexivity|].
  by rewrite split_item0.
Qed.

(** A target that is returned is not empty and ends in [.onion]. *)
Lemma extract_clean_onion_sound (raw h : string) :
  extract_clean_onion raw = Ok (Some h) → Spec.is_target h.
Proof.
  rewrite extract_clean_onion_unfold. cbv zeta.
  destruct (if _ : bool then _ else _) as [hostname|e]; [|discriminate].
  cbn. destruct (accepted hostname) eqn:A; [|discriminate].
  intros [= ->]. cbn in A. apply andb_true_iff in A as [T S].
  split; [by destruct h|by apply endswith_spec].
Qed.

(** A hostname without the suffix is never returned. *)
Lemma extract_clean_onion_gate (raw h : string) :
  extract_clean_onion raw = Ok (Some h) → endswith h ".onion" = true.
Proof.
  intros [_ S]%extract_clean_onion_sound. by apply endswith_spec.
Qed.

(** C4, at an input with an unmatched square bracket: the URL parser
    raises [ValueError], and so does the normalizer, whatever the
    version of the bracket check. *)
Theorem extract_clean_onion_unmatched_bracket :
  extract_clean_onion "http://[abc.onion/" =
  Raise (ValueError "Invalid IPv6 URL").
Proof. reflexivity. Qed.

Lemma isspace_lower_char (c : ascii) : isspace (lower_char c) = isspace c.
Proof. by destruct c as [[] [] [] [] [] [] [] []]. Qed.

Lemma lower_char_idemp (c : ascii) : lower_char (lower_char c) = lower_char c.
Proof. by destruct c as [[] [] [] [] [] [] [] []]. Qed.

Lemma lower_idemp (s : string) : lower (lower s) = lower s.
Proof.
  induction s as [|c s IH]; simpl; [reflexivity|].
  by rewrite lower_char_idemp, IH.
Qed.

Lemma lstrip_lower (s : string) : lstrip (lower s) = lower (lstrip s).
Proof.
  induction s as [|c s IH]; simpl; [reflexivity|].
  rewrite isspace_lower_char. by destruct (isspace c).
Qed.

Lemma rstrip_lower (s : string) : rstrip (lower s) = lower (rstrip s).
Proof.
  induction s as [|c s IH]; simpl; [reflexivity|].
  rewrite IH, isspace_lower_char.
  destruct (rstrip s); simpl; [by destruct (isspace c)|reflexivity].
Qed.

(** X1.  The normalizer does not see the case of its input: an input
    and its lower-case form give the same result. *)
Lemma extract_clean_onion_case_insensitive (raw : string) :
  extract_clean_onion (lower raw) = extract_clean_onion raw.
Proof.
  rewrite !extract_clean_onion_unfold. cbv zeta.
  unfold strip. by rewrite rstrip_lower, lstrip_lower, lower_idemp.
Qed.

Example extract_clean_onion_FOO :
  extract_clean_onion "FOO.onion" = Ok (Some "foo.onion")
  ∧ extract_clean_onion "foo.onion" = Ok (Some "foo.onion")
  ∧ extract_clean_onion "not-a-url" = Ok None
  ∧ extract_clean_onion "ftp://abc.onion/x" = Ok None
  ∧ extract_clean_onion " HTTPS://User@ABC.Onion:8080/path?q " =
      Ok (Some "abc.onion").
Proof. repeat split; reflexivity. Qed.

End normalizer_facts.

(* ===================================================================== *)
(** ** The loaders *)
(* ===================================================================== *)

Section loaders_facts.

Import Loaders.

Variable _check_bracketed_netloc : string → result unit.
Variable list_of_set : gset (option string) → list (option string).
Hypothesis list_of_set_elements : ∀ s, list_of_set s ≡ₚ elements s.

Local Abbreviation extract_clean_onion :=
  (Normalizer.extract_clean_onion _check_bracketed_netloc).

(** The invariant of the three loops: the set holds targets only. *)
Local Abbreviation targets_only := Spec.targets_only.

Lemma targets_only_empty : targets_only ∅.
Proof. intros v Hv. set_solver. Qed.

Lemma targets_only_add (v : option string) (s : gset (option string)) :
  (∃ raw, extract_clean_onion raw = Ok v) →
  targets_only s →
  targets_only (if Normalizer.truthy_opt v then {[v]} ∪ s else s).
Proof.
  intros [raw E] Hs. destruct v as [h|]; simpl; [|done].
  destruct (truthy h); [|done].
  intros v [->%elem_of_singleton|Hv]%elem_of_union; [|by apply Hs].
  exists h. split; [done|]. by eapply extract_clean_onion_sound.
Qed.

Lemma txt_comprehension_targets lines acc s :
  targets_only acc → txt_comprehension _check_bracketed_netloc lines acc = Ok s →
  targets_only s.
Proof.
  revert acc. induction lines as [|line rest IH]; intros acc Hacc; simpl.
  - by intros [= <-].
  - destruct (extract_clean_onion line) as [c|e] eqn:E; [|discriminate].
    cbn. pose proof (targets_only_add c acc (ex_intro _ line E) Hacc) as H.
    destruct (Normalizer.truthy_opt c); [|by apply IH].
    cbn. by apply IH.
Qed.

Lemma csv_cells_targets row onions s :
  targets_only onions → csv_cells _check_bracketed_netloc row onions = Ok s →
  targets_only s.
Proof.
  revert onions. induction row as [|cell rest IH]; intros onions Ho; simpl.
  - by intros [= <-].
  - destruct (extract_clean_onion cell) as [url|e] eqn:E; [|discriminate].
    cbn. apply IH. apply targets_only_add; eauto.
Qed.

Lemma csv_rows_targets rows onions s :
  targets_only onions → csv_rows _check_bracketed_netloc rows onions = Ok s →
  targets_only s.
Proof.
  revert onions. induction rows as [|row rest IH]; intros onions Ho; simpl.
  - by intros [= <-].
  - destruct (csv_cells _ row onions) as [onions'|e] eqn:E; [|discriminate].
    cbn. apply IH. by eapply csv_cells_targets.
Qed.

Lemma extract_clean_onion_value_text v url :
  extract_clean_onion_value _check_bracketed_netloc v = Ok url →
  url = None ∨ ∃ raw, extract_clean_onion raw = Ok url.
Proof.
  destruct v as [| | |raw|b]; simpl; try discriminate.
  - right. by exists raw.
  - destruct (UrlParse.all_chars _ _); [|discriminate].
    intros [= <-]. by left.
Qed.

Lemma sqlite_rows_targets rows onions s :
  targets_only onions → sqlite_rows _check_bracketed_netloc rows onions = Ok s →
  targets_only s.
Proof.
  revert onions. induction rows as [|v rest IH]; intros onions Ho; simpl.
  - by intros [= <-].
  - destruct (extract_clean_onion_value _ v) as [url|e] eqn:E;
      [|discriminate].
    cbn. apply IH.
    destruct (extract_clean_onion_value_text _ _ E) as [->|H]; [done|].
    by apply targets_only_add.
Qed.

(** [list(s)] for a set of targets is a list of distinct targets. *)
Lemma list_of_set_distinct (s : gset (option string)) :
  targets_only s → Spec.distinct_targets (list_of_set s).
Proof.
  intros Hs.
  assert (Hnd : NoDup (list_of_set s)).
  { rewrite list_of_set_elements. apply NoDup_elements. }
  assert (Hin : ∀ v, v ∈ list_of_set s → ∃ h, v = Some h ∧ Spec.is_target h).
  { intros v Hv. apply Hs. rewrite list_of_set_elements in Hv.
    by apply elem_of_elements in Hv. }
  clear Hs. induction (list_of_set s) as [|v l IH].
  - exists []. split; [done|]. split; constructor.
  - apply NoDup_cons in Hnd as [Hv Hnd].
    destruct IH as (targets & -> & Hnd' & Hall); [done| |].
    { intros w Hw. apply Hin. by right. }
    destruct (Hin v) as (h & -> & Hh); [by left|].
    exists (h :: targets). split; [done|]. split; [|by constructor].
    apply NoDup_cons. split; [|done].
    intros Hh'. apply Hv. by apply list_elem_of_fmap_2.
Qed.

(** C9.  Whatever order [list] gives to the elements of a set, the
    list that a loader returns consists of pairwise different values,
    each of them a non-empty hostname that ends in [.onion]. *)
Theorem loaders_yield_distinct_targets :
  (∀ lines l,
     load_onions_from_txt _check_bracketed_netloc list_of_set lines = Ok l →
     Spec.distinct_targets l)
  ∧ (∀ rows l,
       load_onions_from_csv _check_bracketed_netloc list_of_set rows = Ok l →
       Spec.distinct_targets l)
  ∧ (∀ rows l,
       load_onions_from_sqlite _check_bracketed_netloc list_of_set rows
       = Ok l →
       Spec.distinct_targets l).
Proof.
  repeat split.
  - intros lines l. unfold load_onions_from_txt.
    destruct (txt_comprehension _ lines ∅) as [s|e] eqn:E; [|discriminate].
    intros [= <-]. apply list_of_set_distinct.
    eapply txt_comprehension_targets; [apply targets_only_empty|done].
  - intros rows l. unfold load_onions_from_csv.
    destruct (csv_rows _ rows ∅) as [s|e] eqn:E; [|discriminate].
    intros [= <-]. apply list_of_set_distinct.
    eapply csv_rows_targets; [apply targets_only_empty|done].
  - intros rows l. unfold load_onions_from_sqlite.
    destruct (sqlite_rows _ rows ∅) as [s|e] eqn:E; [|discriminate].
    intros [= <-]. apply list_of_set_distinct.
    eapply sqlite_rows_targets; [apply targets_only_empty|done].
Qed.

End loaders_facts.

(* ===================================================================== *)
(** ** The thread pool *)
(* ===================================================================== *)

Section pool_facts.

Import Pool.
Local Open Scope nat_scope.

Variable max_workers : nat.
Variable fn : string → result (gmap string pyval).

Local Abbreviation step := (Pool.step max_workers fn).
Local Abbreviation run := (Pool.run max_workers fn).

(** Case analysis on a step that is taken. *)
Ltac step_cases H :=
  match type of H with
  | Pool.step _ _ ?e ?s = Some _ =>
      destruct e as [| |i|i], s as [un qu ru fi re ra st];
      unfold Pool.step in H; cbn [unsubmitted queue running finished
                                  results raised started] in H;
      [ destruct un as [|url un]; [discriminate|]
      | destruct qu as [|url qu]; [discriminate|];
        destruct (decide (length ru < max_workers)); [|discriminate]
      | destruct (ru !! i) as [url|] eqn:Hi; [|discriminate]
      | destruct un; [|discriminate];
        destruct ra; [discriminate|];
        destruct (fi !! i) as [[result|exc]|] eqn:Hi; [| |discriminate] ];
      injection H as <-
  end.

Lemma step_account e s s' :
  step e s = Some s' → account fn s' ≡ₚ account fn s.
Proof.
  intros H. step_cases H; unfold account, raised_list; cbn.
  - rewrite !fmap_app. cbn. solve_Permutation.
  - rewrite !fmap_app. cbn. solve_Permutation.
  - rewrite (delete_Permutation ru i url Hi) at 2.
    rewrite !fmap_cons. solve_Permutation.
  - rewrite (delete_Permutation fi i _ Hi) at 2.
    rewrite !fmap_app. cbn. solve_Permutation.
  - rewrite (delete_Permutation fi i _ Hi) at 2.
    solve_Permutation.
Qed.

Lemma step_started e s s' :
  step e s = Some s' →
  unsubmitted s' ++ queue s' ++ started s'
  ≡ₚ unsubmitted s ++ queue s ++ started s.
Proof. intros H. step_cases H; cbn; solve_Permutation. Qed.

Lemma step_bound e s s' :
  step e s = Some s' →
  length (running s) ≤ max_workers → length (running s') ≤ max_workers.
Proof.
  intros H. step_cases H; cbn; try done.
  - rewrite length_app. cbn. lia.
  - rewrite length_delete by eauto. lia.
Qed.

Lemma step_weight e s s' : step e s = Some s' → S (weight s') = weight s.
Proof.
  intros H. step_cases H; unfold weight; cbn; rewrite ?length_app; cbn;
    try lia.
  - apply lookup_lt_Some in Hi as Hlt.
    rewrite length_delete by eauto. lia.
  - apply lookup_lt_Some in Hi as Hlt.
    rewrite length_delete by eauto. lia.
  - apply lookup_lt_Some in Hi as Hlt.
    rewrite length_delete by eauto. lia.
Qed.

Lemma step_healthy e s s' :
  step e s = Some s' → healthy fn s → healthy fn s'.
Proof.
  intros H [Hra Hacc]. pose proof (step_account _ _ _ H) as P.
  split; [|by rewrite P]. clear P.
  step_cases H; cbn in *; try done.
  exfalso. unfold account in Hacc. cbn in Hacc.
  rewrite (delete_Permutation fi i _ Hi) in Hacc.
  rewrite !Forall_app, Forall_cons in Hacc. destruct_and!.
  match goal with H : returns (Raise _) |- _ => by destruct H as [? [=]] end.
Qed.

(** The same facts along a schedule. *)
Lemma run_ind (P : pool_state → Prop) :
  (∀ e s s', step e s = Some s' → P s → P s') →
  ∀ schedule s s', run schedule s = Some s' → P s → P s'.
Proof.
  intros Hstep schedule. induction schedule as [|e rest IH]; intros s s'.
  - by intros [= <-].
  - simpl. destruct (step e s) as [s1|] eqn:E; [|discriminate].
    intros Hrun Hs. eapply IH; [done|]. by eapply Hstep.
Qed.

Lemma run_app sch1 sch2 s s1 s2 :
  run sch1 s = Some s1 → run sch2 s1 = Some s2 →
  run (sch1 ++ sch2) s = Some s2.
Proof.
  revert s. induction sch1 as [|e rest IH]; intros s; simpl.
  - by intros [= <-].
  - destruct (step e s); [apply IH|discriminate].
Qed.

Lemma run_account schedule s s' :
  run schedule s = Some s' → account fn s' ≡ₚ account fn s.
Proof.
  intros H.
  eapply (run_ind (λ t, account fn t ≡ₚ account fn s)); [|exact H|done].
  intros e t t' Ht Hp. rewrite <- Hp. by eapply step_account.
Qed.

Lemma run_started schedule s s' :
  run schedule s = Some s' →
  unsubmitted s' ++ queue s' ++ started s'
  ≡ₚ unsubmitted s ++ queue s ++ started s.
Proof.
  intros H.
  eapply (run_ind (λ t, unsubmitted t ++ queue t ++ started t
                        ≡ₚ unsubmitted s ++ queue s ++ started s));
    [|exact H|done].
  intros e t t' Ht Hp. rewrite <- Hp. by eapply step_started.
Qed.

Lemma run_bound schedule s s' :
  run schedule s = Some s' →
  length (running s) ≤ max_workers → length (running s') ≤ max_workers.
Proof.
  apply (run_ind (λ t, length (running t) ≤ max_workers)).
  intros e t t'. apply step_bound.
Qed.

Lemma run_healthy schedule s s' :
  run schedule s = Some s' → healthy fn s → healthy fn s'.
Proof. apply (run_ind (healthy fn)). intros e t t'. apply step_healthy. Qed.

Lemma run_weight schedule s s' :
  run schedule s = Some s' → weight s' + length schedule = weight s.
Proof.
  revert s. induction schedule as [|e rest IH]; intros s; simpl.
  - intros [= <-]. lia.
  - destruct (step e s) as [s1|] eqn:E; [|discriminate].
    intros H%IH. apply step_weight in E. lia.
Qed.

(** A state in which the loop has not ended can take a step. *)
Lemma progress s :
  1 ≤ max_workers → healthy fn s → length (running s) ≤ max_workers →
  loop_done s = false → ∃ e s', step e s = Some s'.
Proof.
  intros Hmax [Hra Hacc] Hb Hd.
  destruct s as [un qu ru fi re ra st]; unfold account in Hacc;
    cbn in *. subst ra.
  destruct un as [|url un]; [|by exists Submit; eexists].
  destruct fi as [|x fi].
  - destruct ru as [|url ru]; [|by exists (Finish 0); eexists].
    destruct qu as [|url qu]; [discriminate|].
    exists Start. eexists. cbn.
    destruct (decide _) as [|Hn]; [done|]. cbn in Hn. lia.
  - rewrite !Forall_app, Forall_cons in Hacc. destruct_and!.
    match goal with H : returns x |- _ => destruct H as [d ->] end.
    by exists (Yield 0); eexists.
Qed.

(** Every run can be continued until the loop ends. *)
Lemma completion s :
  1 ≤ max_workers → healthy fn s → length (running s) ≤ max_workers →
  ∃ rest s', run rest s = Some s' ∧ loop_done s' = true.
Proof.
  intros Hmax. remember (weight s) as n eqn:Hn. revert s Hn.
  induction n as [n IH] using lt_wf_ind. intros s -> Hh Hb.
  destruct (loop_done s) eqn:Hd; [by exists [], s|].
  destruct (progress s Hmax Hh Hb Hd) as (e & s1 & E).
  destruct (IH (weight s1)) with (s := s1) as (rest & s' & Hrun & Hd');
    [apply step_weight in E; lia|done|by eapply step_healthy
    |by eapply step_bound|].
  exists (e :: rest), s'. split; [|done]. simpl. by rewrite E.
Qed.

End pool_facts.

(* ===================================================================== *)
(** ** The run: dispatch and aggregation *)
(* ===================================================================== *)

Section main_facts.

Import Probe Pool Report.
Local Open Scope nat_scope.

Lemma init_healthy fn onion_urls :
  Forall (λ url, returns (fn url)) onion_urls → healthy fn (init onion_urls).
Proof.
  intros H. split; [done|]. unfold account; cbn. rewrite app_nil_r.
  by apply Forall_fmap.
Qed.

Lemma check_onion_healthy net onion_urls :
  faults_are_exceptions net → healthy (check_onion net) (init onion_urls).
Proof.
  intros Hnet. apply init_healthy, Forall_forall.
  intros url _. by apply check_onion_returns.
Qed.

Lemma loop_done_account fn s :
  loop_done s = true →
  account fn s = ((Ok <$> results s) ++ raised_list s)%list.
Proof.
  destruct s as [un qu ru fi re ra st]; unfold loop_done, account; cbn.
  by destruct un, qu, ru, fi.
Qed.

Lemma loop_done_started s :
  loop_done s = true →
  (unsubmitted s ++ queue s ++ started s)%list = started s.
Proof.
  destruct s as [un qu ru fi re ra st]; unfold loop_done; cbn.
  by destruct un, qu, ru, fi.
Qed.

(** C3.  With at least one worker and a network whose faults are
    exceptions, every run on a list of distinct targets can be continued
    until the loop over the completed futures ends; and when it has
    ended, under any schedule, [results] holds as many outcomes as
    there are targets, they are the outcomes of the targets up to
    order, their [url] entries are the targets, each once, and the
    calls that were started are the targets, each once. *)
Theorem scheduler_total_coverage (max_workers : nat) (net : world)
    (onion_urls : list string) :
  1 ≤ max_workers → faults_are_exceptions net → NoDup onion_urls →
  (∀ schedule s,
     run max_workers (check_onion net) schedule (init onion_urls) = Some s →
     ∃ rest s',
       run max_workers (check_onion net) rest s = Some s'
       ∧ loop_done s' = true)
  ∧ (∀ schedule s,
       run max_workers (check_onion net) schedule (init onion_urls)
       = Some s →
       loop_done s = true →
       raised s = None
       ∧ length (results s) = length onion_urls
       ∧ Ok <$> results s ≡ₚ check_onion net <$> onion_urls
       ∧ (λ d, d !! "url") <$> results s
         ≡ₚ (λ url, Some (PStr url)) <$> onion_urls
       ∧ NoDup ((λ d : gmap string pyval, d !! "url") <$> results s)
       ∧ started s ≡ₚ onion_urls
       ∧ NoDup (started s)).
Proof.
  intros Hmax Hnet Hnd.
  assert (Hfn : ∀ url, returns (check_onion net url))
    by (intros url; by apply check_onion_returns).
  split.
  - intros schedule s Hrun. apply completion; [done| |].
    + eapply run_healthy; [exact Hrun|by apply check_onion_healthy].
    + eapply run_bound; [exact Hrun|cbn; lia].
  - intros schedule s Hrun Hd.
    assert (Hra : raised s = None).
    { eapply run_healthy; [exact Hrun|by apply check_onion_healthy]. }
    pose proof (run_account _ _ _ _ _ Hrun) as Hacc.
    rewrite (loop_done_account _ _ Hd) in Hacc.
    unfold raised_list in Hacc. rewrite Hra, app_nil_r in Hacc.
    unfold account, init in Hacc. cbn in Hacc. rewrite app_nil_r in Hacc.
    pose proof (run_started _ _ _ _ _ Hrun) as Hst.
    rewrite (loop_done_started _ Hd) in Hst. cbn in Hst.
    rewrite app_nil_r in Hst.
    assert (Hurl : (λ d : gmap string pyval, d !! "url") <$> results s
                   ≡ₚ (λ url, Some (PStr url)) <$> onion_urls).
    { apply (fmap_Permutation Spec.url_entry) in Hacc.
      rewrite <- !list_fmap_compose in Hacc.
      change ((λ d : gmap string pyval, d !! "url") <$> results s)
        with (Spec.url_entry ∘ Ok <$> results s).
      rewrite Hacc. apply reflexive_eq, list_fmap_ext.
      intros i url _. cbn. destruct (Hfn url) as [d Hdu]. rewrite Hdu. cbn.
      by apply check_onion_ok_fields in Hdu as [-> _]. }
    split; [done|]. split.
    { apply Permutation_length in Hacc. by rewrite !length_fmap in Hacc. }
    split; [done|]. split; [done|]. split.
    { rewrite Hurl. apply NoDup_fmap_2; [|done]. by intros a b [= ->]. }
    split; [done|]. by rewrite Hst.
Qed.

(** C6.  When the faults of the network are exceptions, every call of
    [check_onion] returns a dictionary, and a failed request gives the
    OFFLINE one; in no state of any run has the main thread received
    an exception from a future, and no finished future holds one. *)
Theorem probe_faults_recovered (net : world) :
  faults_are_exceptions net →
  (∀ url, ∃ d, check_onion net url = Ok d
     ∧ ∀ e, requests_get (net ("http://" +:+ url)) = Fails e →
         d !! "status" = Some (PStr "OFFLINE"))
  ∧ (∀ max_workers onion_urls schedule s,
       run max_workers (check_onion net) schedule (init onion_urls)
       = Some s →
       raised s = None ∧ Forall returns (finished s)).
Proof.
  intros Hnet. split.
  - intros url. rewrite check_onion_unfold. cbv zeta.
    destruct (requests_get _) as [c|e] eqn:E.
    + eexists. split; [done|]. by intros e.
    + rewrite (Hnet _ _ E). eexists. split; [done|]. intros _ _.
      by simplify_map_eq.
  - intros max_workers onion_urls schedule s Hrun.
    destruct (run_healthy _ _ _ _ _ Hrun (check_onion_healthy _ _ Hnet))
      as [Hra Hacc].
    split; [done|]. unfold account in Hacc.
    rewrite !Forall_app in Hacc. tauto.
Qed.

End main_facts.

(* ===================================================================== *)
(** ** The report *)
(* ===================================================================== *)

Section report_facts.

Import Probe Pool Report.
Local Open Scope nat_scope.

Lemma sum_response_time_spec results acc :
  Forall Spec.has_response_time results →
  ∃ total,
    sum_response_time results acc = Ok total
    ∧ (total == acc + foldr Qplus 0 (Spec.durations results))%Q
    ∧ length (Spec.durations results) = length results.
Proof.
  intros H. revert acc. induction H as [|d rest [x Hx] _ IH]; intros acc.
  - exists acc. cbn. split; [done|]. split; [ring|done].
  - destruct (IH (acc + x)%Q) as (total & E & Hsum & Hlen).
    assert (Hd : Spec.durations (d :: rest) = x :: Spec.durations rest).
    { unfold Spec.durations. cbn. by rewrite Hx. }
    exists total. rewrite Hd. cbn. unfold getitem. rewrite Hx. cbn.
    split; [done|]. split; [|by rewrite Hlen].
    rewrite Hsum. ring.
Qed.

(** On a non-empty list of outcomes the average of the script is the
    arithmetic mean of the elapsed times, rounded to two decimals. *)
Lemma average_spec results :
  results ≠ [] → Forall Spec.has_response_time results →
  average results
  = Ok (round (Spec.arithmetic_mean (Spec.durations results)) 2).
Proof.
  intros Hne H.
  destruct (sum_response_time_spec results 0%Q H) as (total & E & Hsum & Hlen).
  unfold average. rewrite E. cbn.
  destruct results as [|d rest]; [done|]. cbn [length].
  f_equal. apply round_compat. unfold Spec.arithmetic_mean.
  rewrite Hlen, Hsum. cbn [length]. by rewrite Qplus_0_l.
Qed.

Lemma average_empty :
  average [] = Raise (ZeroDivisionError "division by zero").
Proof. reflexivity. Qed.

(** The outcomes collected by a run, whatever its state, come from
    calls of [check_onion] on the submitted URLs. *)
Lemma run_results_origin max_workers net onion_urls schedule s d :
  run max_workers (check_onion net) schedule (init onion_urls) = Some s →
  d ∈ results s → ∃ url, url ∈ onion_urls ∧ check_onion net url = Ok d.
Proof.
  intros Hrun Hd.
  pose proof (run_account _ _ _ _ _ Hrun) as Hacc.
  assert (Hin : Ok d ∈ account (check_onion net) s).
  { unfold account. rewrite !elem_of_app. do 4 right. left.
    by apply list_elem_of_fmap_2. }
  rewrite Hacc in Hin. unfold account, init in Hin. cbn in Hin.
  rewrite app_nil_r in Hin.
  apply list_elem_of_fmap in Hin as (url & E & Hurl). by exists url.
Qed.

Lemma run_results_response_time max_workers net onion_urls schedule s :
  run max_workers (check_onion net) schedule (init onion_urls) = Some s →
  Forall Spec.has_response_time (results s).
Proof.
  intros Hrun. apply Forall_forall. intros d Hd.
  destruct (run_results_origin _ _ _ _ _ _ Hrun Hd) as (url & _ & E).
  by apply check_onion_ok_fields in E as [_ ?].
Qed.

(** What [main] returns, in terms of the final state of the pool. *)
Lemma main_inv net onion_urls schedule r :
  main net onion_urls schedule = Some r →
  ∃ s, run MAX_THREADS (check_onion net) schedule (init onion_urls) = Some s
    ∧ match raised s with
      | Some e => r = Raise e
      | None =>
          loop_done s = true
          ∧ r = (avg ← average (results s);
                 Ok {| outcomes := results s; avg_time := avg |})
      end.
Proof.
  unfold main. destruct (run _ _ _ _) as [s|]; [|discriminate]. cbn.
  intros H. exists s. split; [done|].
  destruct (raised s); [by injection H|].
  destruct (loop_done s); [by injection H|discriminate].
Qed.

(** C1, on the code: with no target the only complete schedule is the
    empty one, and [main] ends with [ZeroDivisionError] in the division
    by [len(results)]. *)
Theorem main_empty_target_set (net : world) (schedule : list event) :
  main net [] schedule =
  match schedule with
  | [] => Some (Raise (ZeroDivisionError "division by zero"))
  | _ :: _ => None
  end.
Proof.
  destruct schedule as [|e rest]; [reflexivity|].
  unfold main. cbn. by destruct e as [| |[|i]|[|i]].
Qed.

(** X19.  The scenario of the two targets: [abc.onion] answers with
    status 200 after 0.5 s and the request for [xyz.onion] times out
    after 10 s.  [main] returns under some schedule, and under every
    complete schedule it returns the two outcomes (abc.onion, ONLINE,
    0.5) and (xyz.onion, OFFLINE, 10), in some order, with average
    5.25.  Every number that occurs (0.5, 10, their sum 10.5 and the
    average 5.25) is a binary fraction, so that the computation is the
    same in binary floating point. *)
Theorem main_two_targets (net : world) (onion_urls : list string) :
  onion_urls ≡ₚ ["abc.onion"; "xyz.onion"] →
  requests_get (net "http://abc.onion") = Response 200 →
  (t_end (net "http://abc.onion") - t_start (net "http://abc.onion")
   == 1 # 2)%Q →
  requests_get (net "http://xyz.onion")
  = Fails (RequestException Timeout) →
  (t_end (net "http://xyz.onion") - t_start (net "http://xyz.onion")
   == inject_Z TIMEOUT)%Q →
  (∃ schedule rep, main net onion_urls schedule = Some (Ok rep))
  ∧ ∀ schedule r,
      main net onion_urls schedule = Some r →
      ∃ rep,
        r = Ok rep
        ∧ Spec.outcome_of_dict <$> outcomes rep
          ≡ₚ [Some {| Spec.target := "abc.onion";
                      Spec.outcome_status := Spec.ONLINE;
                      Spec.elapsed := 1 # 2 |};
              Some {| Spec.target := "xyz.onion";
                      Spec.outcome_status := Spec.OFFLINE;
                      Spec.elapsed := 10 |}]
        ∧ avg_time rep = (21 # 4)%Q.
Proof.
  intros Hperm Habc Tabc Hxyz Txyz.
  assert (Eabc : check_onion net "abc.onion" =
    Ok (<["response_time" := PFloat (1 # 2)]>
         (<["status" := PStr "ONLINE"]>
           (<["url" := PStr "abc.onion"]> ∅)))).
  { unfold check_onion.
    change ("http://" +:+ "abc.onion") with "http://abc.onion".
    rewrite Habc. cbn. by rewrite (round_compat _ _ 2 Tabc). }
  assert (Exyz : check_onion net "xyz.onion" =
    Ok (<["response_time" := PFloat 10]>
         (<["status" := PStr "OFFLINE"]>
           (<["url" := PStr "xyz.onion"]> ∅)))).
  { unfold check_onion.
    change ("http://" +:+ "xyz.onion") with "http://xyz.onion".
    rewrite Hxyz. cbn. by rewrite (round_compat _ _ 2 Txyz). }
  assert (Hall : ∀ schedule r,
    main net onion_urls schedule = Some r →
    ∃ rep, r = Ok rep
      ∧ Spec.outcome_of_dict <$> outcomes rep
        ≡ₚ [Some {| Spec.target := "abc.onion";
                    Spec.outcome_status := Spec.ONLINE;
                    Spec.elapsed := 1 # 2 |};
            Some {| Spec.target := "xyz.onion";
                    Spec.outcome_status := Spec.OFFLINE;
                    Spec.elapsed := 10 |}]
      ∧ avg_time rep = (21 # 4)%Q).
  { intros schedule r Hmain.
    destruct (main_inv _ _ _ _ Hmain) as (s & Hrun & Hs).
    pose proof (run_account _ _ _ _ _ Hrun) as Hacc.
    unfold account at 2 in Hacc. unfold init in Hacc. cbn in Hacc.
    rewrite app_nil_r, Hperm in Hacc. cbn in Hacc.
    rewrite Eabc, Exyz in Hacc.
    destruct (raised s) as [e|] eqn:Hra.
    { exfalso.
      assert (Hin : Raise e ∈ account (check_onion net) s).
      { unfold account, raised_list. rewrite Hra, !elem_of_app.
        do 5 right. by left. }
      rewrite Hacc in Hin.
      by apply elem_of_cons in Hin as [?|[?|?%elem_of_nil]%elem_of_cons]. }
    destruct Hs as [Hd ->].
    rewrite (loop_done_account _ _ Hd) in Hacc.
    unfold raised_list in Hacc. rewrite Hra, app_nil_r in Hacc.
    symmetry in Hacc. apply Permutation_length_2_inv in Hacc.
    destruct (results s) as [|d1 [|d2 [|d3 rest]]];
      destruct Hacc as [Hacc|Hacc]; try discriminate;
      injection Hacc as -> ->;
      (eexists; split; [reflexivity|]; split; [|reflexivity]);
      cbn [outcomes fmap list_fmap].
    - done.
    - apply perm_swap. }
  split; [|exact Hall].
  assert (Hh : healthy (check_onion net) (init onion_urls)).
  { apply init_healthy. rewrite Hperm.
    repeat constructor; by eexists. }
  destruct (completion MAX_THREADS (check_onion net) (init onion_urls))
    as (schedule & s & Hrun & Hd); [unfold MAX_THREADS; lia|done|cbn; lia|].
  destruct (run_healthy _ _ _ _ _ Hrun Hh) as [Hra _].
  assert (Hmain : ∃ r, main net onion_urls schedule = Some r).
  { unfold main. rewrite Hrun. cbn. rewrite Hra, Hd. by eexists. }
  destruct Hmain as [r Hmain].
  destruct (Hall _ _ Hmain) as (rep & -> & _). by exists schedule, rep.
Qed.

End report_facts.

(* ===================================================================== *)
(** ** The theorems at sample inputs *)
(* ===================================================================== *)

Section samples.

Import Probe Pool Report Examples.
Local Open Scope nat_scope.

Lemma net_faults_are_exceptions : faults_are_exceptions net.
Proof.
  intros full_url e. unfold net.
  destruct (String.eqb full_url "http://abc.onion"); [discriminate|].
  destruct (String.eqb full_url "http://xyz.onion"); [|discriminate].
  cbn. by intros [= <-].
Defined.

(** C10 at [abc.onion]. *)
Lemma check_onion_fields_witness :
  ∃ d, check_onion net "abc.onion" = Ok d
    ∧ d !! "url" = Some (PStr "abc.onion")
    ∧ dom d = ({["url"; "status"; "response_time"]} : gset string).
Proof.
  eexists. split; [reflexivity|].
  destruct (check_onion_fields net "abc.onion" _ eq_refl) as (H1 & H2 & _).
  exact (conj H1 H2).
Defined.

(** C6 at [xyz.onion], whose request times out. *)
Lemma probe_faults_recovered_witness :
  ∃ d, check_onion net "xyz.onion" = Ok d
    ∧ d !! "status" = Some (PStr "OFFLINE").
Proof.
  destruct (probe_faults_recovered net net_faults_are_exceptions)
    as [H _].
  destruct (H "xyz.onion") as (d & E & Hd).
  exists d. split; [exact E|]. by eapply Hd.
Defined.

(** C3 on two workers, three targets and an interleaved schedule. *)
Lemma scheduler_total_coverage_witness :
  ∃ s, run 2 (check_onion net) interleaved (init three_targets) = Some s
    ∧ length (results s) = 3
    ∧ (λ d : gmap string pyval, d !! "url") <$> results s
      = [Some (PStr "xyz.onion"); Some (PStr "def.onion");
         Some (PStr "abc.onion")]
    ∧ started s ≡ₚ three_targets.
Proof.
  eexists. split; [vm_compute; reflexivity|].
  assert (Hnd : NoDup three_targets).
  { apply (bool_decide_unpack _). by vm_compute. }
  destruct (scheduler_total_coverage 2 net three_targets
              ltac:(lia) net_faults_are_exceptions Hnd) as [_ H].
  destruct (H interleaved _ ltac:(vm_compute; reflexivity)
              ltac:(vm_compute; reflexivity))
    as (_ & Hlen & _ & _ & _ & Hst & _).
  split; [exact Hlen|]. split; [vm_compute; reflexivity|exact Hst].
Defined.

(** C9 on a text file, a table and a database column. *)
Lemma loaders_yield_distinct_targets_witness :
  Spec.distinct_targets [Some "foo.onion"]
  ∧ Loaders.load_onions_from_csv no_bracket_check elements
      [["name"; "http://Foo.onion/a"]; ["x"; "foo.onion"]]
    = Ok [Some "foo.onion"]
  ∧ Loaders.load_onions_from_sqlite no_bracket_check elements
      [Loaders.SqlText "foo.onion/x"; Loaders.SqlBlob " "]
    = Ok [Some "foo.onion"].
Proof.
  destruct (loaders_yield_distinct_targets no_bracket_check elements
              (λ s, reflexivity (elements s))) as (Htxt & _ & _).
  split; [|split; reflexivity].
  apply (Htxt ["foo.onion
"; " FOO.onion "; "not-a-url"]). reflexivity.
Defined.

End samples.

(* ===================================================================== *)
(** ** Further properties *)
(* ===================================================================== *)

Section string_facts.

Import Extra.

Import UrlParse.

Lemma all_chars_app p s t :
  all_chars p (s +:+ t) = all_chars p s && all_chars p t.
Proof.
  induction s as [|c s IH]; [done|].
  change (String c s +:+ t) with (String c (s +:+ t)). cbn.
  by rewrite IH, andb_assoc.
Qed.

Lemma all_chars_impl (p q : ascii → bool) s :
  (∀ c, p c = true → q c = true) →
  all_chars p s = true → all_chars q s = true.
Proof.
  intros Hpq. induction s as [|c s IH]; [done|]. cbn.
  intros [Hc Hs]%andb_true_iff. by rewrite (Hpq c Hc), IH.
Qed.

Lemma all_chars_not_contains p s c :
  all_chars p s = true → p c = false → contains c s = false.
Proof.
  intros Hs Hc. induction s as [|d s IH]; [done|]. cbn in *.
  apply andb_true_iff in Hs as [Hd Hs]. rewrite (IH Hs), orb_false_r.
  destruct (Ascii.eqb_spec d c) as [->|]; [congruence|done].
Qed.

(** Whitespace *)
Lemma rstrip_spaces ws : all_chars isspace ws = true → rstrip ws = "".
Proof.
  induction ws as [|c ws IH]; [done|]. cbn.
  intros [Hc Hws]%andb_true_iff. by rewrite (IH Hws), Hc.
Qed.

Lemma rstrip_app_spaces s ws :
  all_chars isspace ws = true → rstrip (s +:+ ws) = rstrip s.
Proof.
  intros Hws. induction s as [|c s IH].
  - by apply rstrip_spaces.
  - change (String c s +:+ ws) with (String c (s +:+ ws)). cbn.
    by rewrite IH.
Qed.

Lemma lstrip_rstrip_spaces_app ws t :
  all_chars isspace ws = true →
  lstrip (rstrip (ws +:+ t)) = lstrip (rstrip t).
Proof.
  intros Hws. induction ws as [|c ws IH]; [done|].
  cbn in Hws. apply andb_true_iff in Hws as [Hc Hws].
  change (String c ws +:+ t) with (String c (ws +:+ t)). cbn.
  specialize (IH Hws).
  destruct (rstrip (ws +:+ t)) as [|d r].
  - rewrite Hc. cbn in IH. by rewrite <- IH.
  - cbn [lstrip]. rewrite Hc. exact IH.
Qed.

Lemma strip_padding ws1 raw ws2 :
  all_chars isspace ws1 = true → all_chars isspace ws2 = true →
  strip (ws1 +:+ raw +:+ ws2) = strip raw.
Proof.
  intros H1 H2. unfold strip.
  by rewrite lstrip_rstrip_spaces_app, rstrip_app_spaces.
Qed.

Lemma rstrip_cons_nonspace c s :
  isspace c = false → rstrip (String c s) = String c (rstrip s).
Proof. intros Hc. cbn. rewrite Hc. by destruct (rstrip s). Qed.

Lemma rstrip_nonspace_app x y :
  all_chars nonspace x = true → rstrip (x +:+ y) = x +:+ rstrip y.
Proof.
  induction x as [|c x IH]; [done|]. cbn.
  intros [Hc Hx]%andb_true_iff. apply negb_true_iff in Hc.
  change (String c x +:+ y) with (String c (x +:+ y)).
  rewrite (rstrip_cons_nonspace _ _ Hc), (IH Hx). done.
Qed.

Lemma lower_app x y : lower (x +:+ y) = lower x +:+ lower y.
Proof.
  induction x as [|c x IH]; [done|].
  change (String c x +:+ y) with (String c (x +:+ y)). cbn.
  by rewrite IH.
Qed.

Lemma app_assoc_s (x y z : string) : (x +:+ y) +:+ z = x +:+ (y +:+ z).
Proof.
  induction x as [|c x IH]; [done|].
  change (String c x +:+ y) with (String c (x +:+ y)).
  change (String c (x +:+ y) +:+ z) with (String c ((x +:+ y) +:+ z)).
  change (String c x +:+ (y +:+ z)) with (String c (x +:+ (y +:+ z))).
  by rewrite IH.
Qed.

Lemma before_first_app sep a t :
  contains sep a = false →
  Spec.before_first sep (a +:+ String sep t) = a.
Proof.
  induction a as [|c a IH]; cbn.
  - intros _. change ("" +:+ String sep t) with (String sep t). cbn.
    by rewrite Ascii.eqb_refl.
  - intros [Hc Ha]%orb_false_iff.
    change (String c a +:+ String sep t) with (String c (a +:+ String sep t)).
    cbn. rewrite Hc. by rewrite (IH Ha).
Qed.

Lemma before_first_none sep a :
  contains sep a = false → Spec.before_first sep a = a.
Proof.
  induction a as [|c a IH]; cbn; [done|].
  intros [Hc Ha]%orb_false_iff. rewrite Hc. by rewrite (IH Ha).
Qed.

(** Two texts that agree up to their first colon. *)
Lemma startswith_colon a t p u :
  contains ":" a = false → contains ":" p = false →
  startswith (a +:+ String ":" t) (p +:+ String ":" u) = true → a = p.
Proof.
  revert p. induction a as [|c a IH]; intros [|d p]; cbn [contains startswith].
  - done.
  - intros _ [Hd _]%orb_false_iff.
    change ("" +:+ String ":" t) with (String ":" t).
    change (String d p +:+ String ":" u) with (String d (p +:+ String ":" u)).
    cbn [contains startswith]. intros [H _]%andb_true_iff. apply Ascii.eqb_eq in H. subst d.
    discriminate.
  - intros [Hc _]%orb_false_iff _.
    change (String c a +:+ String ":" t) with (String c (a +:+ String ":" t)).
    change ("" +:+ String ":" u) with (String ":" u).
    cbn [contains startswith]. intros [H _]%andb_true_iff. apply Ascii.eqb_eq in H. subst c.
    discriminate.
  - intros [_ Ha]%orb_false_iff [_ Hp]%orb_false_iff.
    change (String c a +:+ String ":" t) with (String c (a +:+ String ":" t)).
    change (String d p +:+ String ":" u) with (String d (p +:+ String ":" u)).
    cbn [contains startswith]. intros [H1 H2]%andb_true_iff. apply Ascii.eqb_eq in H1. subst d.
    f_equal. by apply IH.
Qed.

Lemma app_last_inj (a b : string) (c d : ascii) :
  a +:+ String c "" = b +:+ String d "" → c = d.
Proof.
  revert b. induction a as [|x a IH]; intros [|y b]; cbn.
  - by intros [= ->].
  - change ("" +:+ String c "") with (String c "").
    change (String y b +:+ String d "") with (String y (b +:+ String d "")).
    intros [= _ H]. by destruct b.
  - change (String x a +:+ String c "") with (String x (a +:+ String c "")).
    change ("" +:+ String d "") with (String d "").
    intros [= _ H]. by destruct a.
  - change (String x a +:+ String c "") with (String x (a +:+ String c "")).
    change (String y b +:+ String d "") with (String y (b +:+ String d "")).
    intros [= _ H]. by apply (IH b).
Qed.

End string_facts.

Section normalizer_extra.

Import Extra.

Import Normalizer.
Variable _check_bracketed_netloc : string → result unit.
Local Abbreviation extract_clean_onion :=
  (Normalizer.extract_clean_onion _check_bracketed_netloc).

(** X2.  Whitespace around the input, such as the newline that [readlines]
    leaves at the end of a line, does not change the result. *)
Theorem extract_clean_onion_padding (ws1 raw ws2 : string) :
  UrlParse.all_chars isspace ws1 = true →
  UrlParse.all_chars isspace ws2 = true →
  extract_clean_onion (ws1 +:+ raw +:+ ws2) = extract_clean_onion raw.
Proof.
  intros H1 H2. unfold Normalizer.extract_clean_onion.
  by rewrite strip_padding.
Qed.

Lemma scheme_char_lower c :
  UrlParse.scheme_char c = true →
  nonspace c = true ∧ nonspace (lower_char c) = true
  ∧ Ascii.eqb (lower_char c) "/" = false
  ∧ Ascii.eqb (lower_char c) ":" = false.
Proof. destruct c as [[] [] [] [] [] [] [] []]; by cbn. Qed.

(** X3.  An input with a scheme other than [http] and [https] gives no
    target, whatever follows the scheme. *)
Theorem extract_clean_onion_other_scheme (scheme rest : string) :
  UrlParse.all_chars UrlParse.scheme_char scheme = true →
  lower scheme ≠ "http" → lower scheme ≠ "https" →
  extract_clean_onion (scheme +:+ "://" +:+ rest) = Ok None.
Proof.
  intros Hsch Hhttp Hhttps.
  assert (Hns : UrlParse.all_chars nonspace scheme = true).
  { eapply all_chars_impl; [|exact Hsch].
    intros c Hc. by apply scheme_char_lower in Hc as [? _]. }
  assert (Hslash : contains "/" (lower scheme) = false
                   ∧ contains ":" (lower scheme) = false).
  { clear -Hsch. induction scheme as [|c sc IH]; [done|]. cbn in *.
    apply andb_true_iff in Hsch as [Hc Hsc].
    apply scheme_char_lower in Hc as (_ & _ & H1 & H2).
    destruct (IH Hsc) as [I1 I2]. by rewrite H1, H2, I1, I2. }
  destruct Hslash as [Hslash Hcolon].
  rewrite extract_clean_onion_unfold. cbv zeta.
  assert (Es : lower (strip (scheme +:+ "://" +:+ rest))
               = lower scheme +:+ String ":" (String "/" (String "/"
                   (lower (rstrip rest))))).
  { unfold strip. rewrite rstrip_nonspace_app by done.
    change ("://" +:+ rest) with (String ":" (String "/" (String "/" rest))).
    rewrite !rstrip_cons_nonspace by done.
    assert (El : ∀ z, lstrip (scheme +:+ String ":" z) = scheme +:+ String ":" z).
    { intros z. destruct scheme as [|c sc]; [done|].
      change (String c sc +:+ String ":" z)
        with (String c (sc +:+ String ":" z)).
      cbn in Hns. apply andb_true_iff in Hns as [Hc _].
      apply negb_true_iff in Hc. cbn. by rewrite Hc. }
    rewrite El, lower_app. done. }
  rewrite Es.
  assert (E1 : startswith (lower scheme +:+ String ":" (String "/" (String "/"
                 (lower (rstrip rest))))) "http://" = false).
  { apply not_true_is_false. intros H. apply Hhttp.
    by apply (startswith_colon _ _ "http" "//") in H. }
  assert (E2 : startswith (lower scheme +:+ String ":" (String "/" (String "/"
                 (lower (rstrip rest))))) "https://" = false).
  { apply not_true_is_false. intros H. apply Hhttps.
    by apply (startswith_colon _ _ "https" "//") in H. }
  rewrite E1, E2. cbn [orb].
  change (lower scheme +:+ String ":" (String "/" (String "/"
            (lower (rstrip rest)))))
    with (lower scheme +:+ (String ":" "" +:+ String "/" (String "/"
            (lower (rstrip rest))))).
  rewrite <- app_assoc_s, before_first_app.
  2:{ rewrite <- (orb_false_r (contains "/" _)).
      clear -Hslash. induction (lower scheme) as [|c s IH]; [done|].
      cbn in *. apply orb_false_iff in Hslash as [H1 H2].
      change (String c s +:+ ":") with (String c (s +:+ ":")). cbn.
      rewrite H1. cbn. rewrite orb_false_r in IH. rewrite orb_false_r.
      by apply IH. }
  cbn. 
  destruct (truthy _ && endswith _ ".onion") eqn:A; [|done].
  exfalso. apply andb_true_iff in A as [_ A].
  apply endswith_spec in A as [p A].
  change (p +:+ ".onion") with (p +:+ (".onio" +:+ String "n" "")) in A.
  rewrite <- app_assoc_s in A. by apply app_last_inj in A.
Qed.

End normalizer_extra.


Section plain_facts.

Import Extra.
Import UrlParse.

Lemma find_aux_none c s i : contains c s = false → find_aux c s i = (-1)%Z.
Proof.
  revert i. induction s as [|d s IH]; intros i; [done|]. cbn.
  intros [Hd Hs]%orb_false_iff. rewrite Hd. by apply IH.
Qed.

Lemma remove_char_none c s : contains c s = false → remove_char c s = s.
Proof.
  induction s as [|d s IH]; [done|]. cbn.
  intros [Hd Hs]%orb_false_iff. by rewrite Hd, (IH Hs).
Qed.

Lemma partition_none c s : contains c s = false → partition c s = (s, "", "").
Proof.
  induction s as [|d s IH]; [done|]. cbn.
  intros [Hd Hs]%orb_false_iff. by rewrite Hd, (IH Hs).
Qed.

Lemma rpartition_none c s :
  contains c s = false → rpartition c s = ("", "", s).
Proof.
  induction s as [|d s IH]; [done|]. cbn.
  intros [Hd Hs]%orb_false_iff. by rewrite (IH Hs), Hd.
Qed.

Lemma slice_to_length s : slice_to (String.length s) s = s.
Proof. induction s as [|c s IH]; [done|]. cbn. by rewrite IH. Qed.

Lemma slice_from_length s : slice_from (String.length s) s = "".
Proof. induction s as [|c s IH]; [done|]. by cbn. Qed.

Lemma lower_fixed_all s : all_chars lower_fixed s = true → lower s = s.
Proof.
  induction s as [|c s IH]; [done|]. cbn.
  intros [Hc Hs]%andb_true_iff. apply Ascii.eqb_eq in Hc.
  by rewrite Hc, (IH Hs).
Qed.

Lemma rstrip_nonspace s : all_chars nonspace s = true → rstrip s = s.
Proof.
  induction s as [|c s IH]; [done|]. cbn [all_chars].
  intros [Hc Hs]%andb_true_iff. apply negb_true_iff in Hc.
  by rewrite (rstrip_cons_nonspace _ _ Hc), (IH Hs).
Qed.

Lemma lstrip_nonspace s : all_chars nonspace s = true → lstrip s = s.
Proof.
  destruct s as [|c s]; [done|]. cbn.
  intros [Hc Hs]%andb_true_iff. apply negb_true_iff in Hc. by rewrite Hc.
Qed.

Lemma startswith_contains s p c :
  startswith s p = true → contains c p = true → contains c s = true.
Proof.
  revert s. induction p as [|d p IH]; intros s; [done|].
  destruct s as [|x s]; [done|]. cbn [startswith contains].
  intros [Hx Hs]%andb_true_iff. apply Ascii.eqb_eq in Hx. subst x.
  intros [->|Hc]%orb_true_iff; [done|].
  rewrite (IH s Hs Hc). apply orb_true_r.
Qed.

Lemma plain_host_char_facts c :
  plain_host_char c = true →
  nonspace c = true ∧ lower_fixed c = true
  ∧ Ascii.eqb c "/" = false ∧ Ascii.eqb c "?" = false
  ∧ Ascii.eqb c "#" = false ∧ Ascii.eqb c "@" = false
  ∧ Ascii.eqb c ":" = false ∧ Ascii.eqb c "[" = false
  ∧ Ascii.eqb c "]" = false ∧ Ascii.eqb c "%" = false
  ∧ Ascii.eqb c "009" = false ∧ Ascii.eqb c "010" = false
  ∧ Ascii.eqb c "013" = false.
Proof. destruct c as [[] [] [] [] [] [] [] []]; by cbn. Qed.

Lemma plain_not_contains h c :
  all_chars plain_host_char h = true →
  plain_host_char c = false → contains c h = false.
Proof. apply all_chars_not_contains. Qed.

End plain_facts.

Section normalizer_extra2.

Import Extra.

Import Normalizer UrlParse.
Variable _check_bracketed_netloc : string → result unit.
Local Abbreviation extract_clean_onion :=
  (Normalizer.extract_clean_onion _check_bracketed_netloc).

Lemma hostname_of_netloc_plain h :
  h ≠ "" → all_chars plain_host_char h = true →
  hostname_of_netloc h = Some h.
Proof.
  intros Hne Hp. unfold hostname_of_netloc, _hostinfo.
  rewrite (rpartition_none "@" h) by (by apply plain_not_contains).
  rewrite (partition_none "[" h) by (by apply plain_not_contains).
  cbn [truthy].
  rewrite (partition_none ":" h) by (by apply plain_not_contains).
  destruct h as [|c h']; [done|]. cbn [truthy negb].
  rewrite (partition_none "%" (String c h')) by (by apply plain_not_contains).
  rewrite lower_fixed_all.
  - change (String c h' +:+ "" +:+ "") with (String c h' +:+ ("" +:+ "")).
    f_equal. generalize (String c h'). clear.
    intros s. induction s as [|d s IH]; [done|].
    change (String d s +:+ ("" +:+ "")) with (String d (s +:+ ("" +:+ ""))).
    by rewrite IH.
  - eapply all_chars_impl; [|exact Hp].
    intros d Hd. by apply plain_host_char_facts in Hd as (_ & ? & _).
Qed.

Lemma splitnetloc_plain h :
  all_chars plain_host_char h = true →
  _splitnetloc (String "/" (String "/" h)) 2 = (h, "").
Proof.
  intros Hp. unfold _splitnetloc, find. cbn [foldl slice_from].
  rewrite !find_aux_none by (by apply plain_not_contains).
  cbn [Z.leb Z.compare]. rewrite Nat2Z.id.
  unfold slice. rewrite slice_to_length.
  cbn [slice_from String.length]. by rewrite slice_from_length.
Qed.

Lemma contains_app c s t :
  contains c (s +:+ t) = contains c s || contains c t.
Proof.
  induction s as [|d s IH]; [done|].
  change (String d s +:+ t) with (String d (s +:+ t)). cbn.
  by rewrite IH, orb_assoc.
Qed.

Lemma remove_unsafe_none s :
  contains "009" s = false → contains "013" s = false →
  contains "010" s = false → remove_unsafe s = s.
Proof.
  intros H9 H13 H10. unfold remove_unsafe.
  by rewrite (remove_char_none "009"), (remove_char_none "013"),
    (remove_char_none "010").
Qed.

Lemma lstrip_c0_h t : lstrip_c0 (String "h" t) = String "h" t.
Proof. reflexivity. Qed.

Lemma strip_scheme_http t :
  strip_scheme (String "h" (String "t" (String "t" (String "p"
    (String ":" t))))) = t.
Proof. reflexivity. Qed.

Lemma strip_scheme_https t :
  strip_scheme (String "h" (String "t" (String "t" (String "p"
    (String "s" (String ":" t)))))) = t.
Proof. reflexivity. Qed.

Lemma urlsplit_netloc_plain (prefix h : string) :
  all_chars plain_host_char h = true →
  prefix = "http://" ∨ prefix = "https://" →
  urlsplit_netloc _check_bracketed_netloc (prefix +:+ h) = Ok h.
Proof.
  intros Hp Hpre.
  assert (Hb1 : contains "[" h = false) by (by apply plain_not_contains).
  assert (Hb2 : contains "]" h = false) by (by apply plain_not_contains).
  assert (Hu : remove_unsafe (prefix +:+ h) = prefix +:+ h).
  { apply remove_unsafe_none; rewrite contains_app;
      (rewrite (plain_not_contains h) by done);
      by destruct Hpre as [->| ->]. }
  unfold urlsplit_netloc.
  destruct Hpre as [->| ->].
  - change ("http://" +:+ h) with
      (String "h" (String "t" (String "t" (String "p" (String ":"
         (String "/" (String "/" h))))))) in *.
    rewrite lstrip_c0_h, Hu, strip_scheme_http.
    cbn [startswith Ascii.eqb Bool.eqb andb].
    rewrite splitnetloc_plain by done. by rewrite Hb1, Hb2.
  - change ("https://" +:+ h) with
      (String "h" (String "t" (String "t" (String "p" (String "s"
         (String ":" (String "/" (String "/" h)))))))) in *.
    rewrite lstrip_c0_h, Hu, strip_scheme_https.
    cbn [startswith Ascii.eqb Bool.eqb andb].
    rewrite splitnetloc_plain by done. by rewrite Hb1, Hb2.
Qed.

(** X4.  The normalizer on plain host names.  A host name made of lower-case
    letters, digits, [.] and [-] that ends in [.onion] is its own
    target, and so is the URL that [check_onion] builds from it: with
    the prefix [http://], or [https://], the result is the host name
    again. *)
Theorem extract_clean_onion_plain_host (h : string) :
  all_chars plain_host_char h = true → endswith h ".onion" = true →
  extract_clean_onion h = Ok (Some h)
  ∧ extract_clean_onion ("http://" +:+ h) = Ok (Some h)
  ∧ extract_clean_onion ("https://" +:+ h) = Ok (Some h).
Proof.
  intros Hp He.
  assert (Hne : h ≠ "") by (by intros ->).
  assert (Hns : all_chars nonspace h = true).
  { eapply all_chars_impl; [|exact Hp].
    intros c Hc. by apply plain_host_char_facts in Hc as (? & _). }
  assert (Hlo : all_chars lower_fixed h = true).
  { eapply all_chars_impl; [|exact Hp].
    intros c Hc. by apply plain_host_char_facts in Hc as (_ & ? & _). }
  assert (Hacc : accepted (Some h) = true).
  { cbn. rewrite He. by destruct h. }
  assert (Hpre : ∀ prefix,
    prefix = "http://" ∨ prefix = "https://" →
    lower (strip (prefix +:+ h)) = prefix +:+ h).
  { intros prefix Hpre.
    assert (Hns' : all_chars nonspace (prefix +:+ h) = true).
    { rewrite all_chars_app, Hns. by destruct Hpre as [->| ->]. }
    unfold strip. rewrite rstrip_nonspace, lstrip_nonspace by done.
    rewrite lower_app, (lower_fixed_all h) by done.
    by destruct Hpre as [->| ->]. }
  split; [|split].
  - rewrite extract_clean_onion_unfold. cbv zeta.
    unfold strip. rewrite rstrip_nonspace, lstrip_nonspace by done.
    rewrite lower_fixed_all by done.
    assert (E1 : startswith h "http://" = false).
    { apply not_true_is_false. intros H.
      apply (startswith_contains _ _ ":") in H; [|done].
      by rewrite (plain_not_contains h ":") in H. }
    assert (E2 : startswith h "https://" = false).
    { apply not_true_is_false. intros H.
      apply (startswith_contains _ _ ":") in H; [|done].
      by rewrite (plain_not_contains h ":") in H. }
    rewrite E1, E2. cbn [orb].
    rewrite before_first_none by (by apply plain_not_contains).
    cbn [mbind result_bind]. by rewrite Hacc.
  - rewrite extract_clean_onion_unfold. cbv zeta.
    rewrite (Hpre "http://") by (by left).
    assert (E : startswith ("http://" +:+ h) "http://" = true) by done.
    rewrite E. cbn [orb]. unfold urlparse_hostname.
    rewrite urlsplit_netloc_plain by (done || by left).
    cbn [mbind result_bind].
    rewrite hostname_of_netloc_plain by done. by rewrite Hacc.
  - rewrite extract_clean_onion_unfold. cbv zeta.
    rewrite (Hpre "https://") by (by right).
    assert (E : startswith ("https://" +:+ h) "https://" = true) by done.
    rewrite E, orb_true_r. unfold urlparse_hostname.
    rewrite urlsplit_netloc_plain by (done || by right).
    cbn [mbind result_bind].
    rewrite hostname_of_netloc_plain by done. by rewrite Hacc.
Qed.

End normalizer_extra2.

Section lowercase.

Import Extra.

Import Normalizer UrlParse.
Variable _check_bracketed_netloc : string → result unit.
Local Abbreviation extract_clean_onion :=
  (Normalizer.extract_clean_onion _check_bracketed_netloc).

Variable p : ascii → bool.

Lemma all_chars_slice_from n s :
  all_chars p s = true → all_chars p (slice_from n s) = true.
Proof.
  revert s. induction n as [|n IH]; intros [|c s]; cbn; try done.
  intros [_ Hs]%andb_true_iff. by apply IH.
Qed.

Lemma all_chars_slice_to n s :
  all_chars p s = true → all_chars p (slice_to n s) = true.
Proof.
  revert s. induction n as [|n IH]; intros [|c s]; cbn; try done.
  intros [Hc Hs]%andb_true_iff. by rewrite Hc, IH.
Qed.

Lemma all_chars_remove_char c s :
  all_chars p s = true → all_chars p (remove_char c s) = true.
Proof.
  induction s as [|d s IH]; [done|]. cbn.
  intros [Hd Hs]%andb_true_iff.
  destruct (Ascii.eqb d c); cbn; [by apply IH|by rewrite Hd, IH].
Qed.

Lemma all_chars_lstrip_c0 s :
  all_chars p s = true → all_chars p (lstrip_c0 s) = true.
Proof.
  induction s as [|d s IH]; [done|]. cbn [lstrip_c0].
  destruct (c0_control_or_space d); [|done].
  cbn. intros [_ Hs]%andb_true_iff. by apply IH.
Qed.

Lemma all_chars_before_first sep s :
  all_chars p s = true → all_chars p (Spec.before_first sep s) = true.
Proof.
  induction s as [|d s IH]; [done|]. cbn.
  intros [Hd Hs]%andb_true_iff.
  destruct (Ascii.eqb d sep); cbn; [done|by rewrite Hd, IH].
Qed.

Lemma all_chars_partition sep s :
  all_chars p s = true →
  all_chars p (partition sep s).1.1 = true
  ∧ all_chars p (partition sep s).1.2 = true
  ∧ all_chars p (partition sep s).2 = true.
Proof.
  induction s as [|d s IH]; [done|]. cbn.
  intros [Hd Hs]%andb_true_iff.
  destruct (Ascii.eqb_spec d sep) as [->|]; cbn.
  - by rewrite Hd, Hs.
  - destruct (IH Hs) as (I1 & I2 & I3).
    destruct (partition sep s) as [[a m] b]. cbn in *. by rewrite Hd, I1.
Qed.

Lemma all_chars_rpartition sep s :
  all_chars p s = true → all_chars p (rpartition sep s).2 = true.
Proof.
  induction s as [|d s IH]; [done|]. cbn.
  intros [Hd Hs]%andb_true_iff. specialize (IH Hs).
  destruct (rpartition sep s) as [[a m] b]. cbn in *.
  destruct m; [|done].
  destruct (Ascii.eqb d sep); cbn; [done|by rewrite Hd].
Qed.

Lemma all_chars_strip_scheme s :
  all_chars p s = true → all_chars p (strip_scheme s) = true.
Proof.
  intros Hs. unfold strip_scheme. destruct s as [|c s']; [done|].
  destruct (_ && _ && _); [|done]. by apply all_chars_slice_from.
Qed.

Lemma all_chars_splitnetloc s n :
  all_chars p s = true → all_chars p (_splitnetloc s n).1 = true.
Proof.
  intros Hs. unfold _splitnetloc, slice. cbn [fst].
  by apply all_chars_slice_from, all_chars_slice_to.
Qed.

Lemma all_chars_urlsplit_netloc s netloc :
  all_chars p s = true →
  urlsplit_netloc _check_bracketed_netloc s = Ok netloc →
  all_chars p netloc = true.
Proof.
  intros Hs. unfold urlsplit_netloc.
  set (u := strip_scheme _).
  assert (Hu : all_chars p u = true).
  { apply all_chars_strip_scheme. unfold remove_unsafe.
    by do 3 apply all_chars_remove_char; apply all_chars_lstrip_c0. }
  destruct (startswith u "//"); [|by intros [= <-]].
  pose proof (all_chars_splitnetloc u 2 Hu) as Hn.
  destruct (_splitnetloc u 2) as [nl rest]. cbn in Hn.
  destruct (_ || _); [discriminate|].
  destruct (_ && _).
  - destruct (_check_bracketed_netloc nl); [|discriminate].
    by intros [= <-].
  - by intros [= <-].
Qed.

Lemma all_chars_hostinfo netloc :
  all_chars p netloc = true → all_chars p (_hostinfo netloc) = true.
Proof.
  intros Hn. unfold _hostinfo.
  pose proof (all_chars_rpartition "@" netloc Hn) as H1.
  destruct (rpartition "@" netloc) as [[? ?] hostinfo]. cbn in H1.
  pose proof (all_chars_partition "[" hostinfo H1) as (_ & _ & H2).
  pose proof (all_chars_partition ":" hostinfo H1) as (H3 & _ & _).
  destruct (partition "[" hostinfo) as [[? have_open_br] bracketed].
  cbn in H2.
  destruct (truthy have_open_br).
  - pose proof (all_chars_partition "]" bracketed H2) as (H4 & _ & _).
    by destruct (partition "]" bracketed) as [[? ?] ?].
  - by destruct (partition ":" hostinfo) as [[? ?] ?].
Qed.

End lowercase.

Section lowercase_out.

Import Extra.

Import Normalizer UrlParse.
Variable _check_bracketed_netloc : string → result unit.
Local Abbreviation extract_clean_onion :=
  (Normalizer.extract_clean_onion _check_bracketed_netloc).

Lemma lower_fixed_lower s : all_chars lower_fixed (lower s) = true.
Proof.
  induction s as [|c s IH]; [done|]. cbn. rewrite IH, andb_true_r.
  unfold lower_fixed. rewrite lower_char_idemp. apply Ascii.eqb_refl.
Qed.

(** X5.  A returned target is in lower case: [lower] leaves it as it is. *)
Theorem extract_clean_onion_lower_case (raw h : string) :
  extract_clean_onion raw = Ok (Some h) → lower h = h.
Proof.
  rewrite extract_clean_onion_unfold. cbv zeta.
  set (s := lower (strip raw)).
  assert (Hs : all_chars lower_fixed s = true) by apply lower_fixed_lower.
  intros H. apply lower_fixed_all.
  destruct (startswith s "http://" || startswith s "https://").
  - unfold urlparse_hostname in H.
    destruct (urlsplit_netloc _ s) as [netloc|e] eqn:En; [|discriminate].
    pose proof (all_chars_urlsplit_netloc _ _ _ _ Hs En) as Hn.
    apply (all_chars_hostinfo lower_fixed) in Hn.
    cbn [mbind result_bind] in H. unfold hostname_of_netloc in H.
    destruct (negb (truthy (_hostinfo netloc))); [discriminate|].
    pose proof (all_chars_partition lower_fixed "%" _ Hn) as (_ & H2 & H3).
    destruct (partition "%" (_hostinfo netloc)) as [[host percent] zone].
    cbn in H2, H3.
    destruct (accepted _); [|discriminate]. injection H as <-.
    by rewrite !all_chars_app, lower_fixed_lower, H2, H3.
  - cbn [mbind result_bind] in H.
    destruct (accepted _); [|discriminate]. injection H as <-.
    by apply all_chars_before_first.
Qed.

End lowercase_out.


Section loaders_extra.

Import Extra.

Import Loaders.

Variable _check_bracketed_netloc : string → result unit.
Variable list_of_set : gset (option string) → list (option string).
Hypothesis list_of_set_elements : ∀ s, list_of_set s ≡ₚ elements s.

Local Abbreviation extract_clean_onion :=
  (Normalizer.extract_clean_onion _check_bracketed_netloc).
Local Abbreviation extract_clean_onion_value :=
  (Loaders.extract_clean_onion_value _check_bracketed_netloc).

(** The loops of the source are instances of [collect]. *)
Lemma csv_cells_collect row onions :
  csv_cells _check_bracketed_netloc row onions
  = collect extract_clean_onion row onions.
Proof.
  revert onions. induction row as [|cell rest IH]; intros onions;
    [done|]. cbn. destruct (extract_clean_onion cell); [|done]. cbn. apply IH.
Qed.

Lemma txt_comprehension_collect lines acc :
  txt_comprehension _check_bracketed_netloc lines acc
  = collect extract_clean_onion lines acc.
Proof.
  revert acc. induction lines as [|line rest IH]; intros acc; [done|].
  cbn. destruct (extract_clean_onion line) as [c|e]; [|done]. cbn.
  destruct (Normalizer.truthy_opt c); cbn; apply IH.
Qed.

Lemma sqlite_rows_collect rows onions :
  sqlite_rows _check_bracketed_netloc rows onions
  = collect extract_clean_onion_value rows onions.
Proof.
  revert onions. induction rows as [|v rest IH]; intros onions; [done|].
  cbn. destruct (extract_clean_onion_value v); [|done]. cbn. apply IH.
Qed.

Lemma collect_app {A} (f : A → result (option string)) xs ys acc :
  collect f (xs ++ ys) acc = (s ← collect f xs acc; collect f ys s).
Proof.
  revert acc. induction xs as [|x xs IH]; intros acc; [done|].
  cbn. destruct (f x); [|done]. cbn. apply IH.
Qed.

Lemma csv_rows_collect rows onions :
  csv_rows _check_bracketed_netloc rows onions
  = collect extract_clean_onion (mjoin rows) onions.
Proof.
  revert onions. induction rows as [|row rest IH]; intros onions; [done|].
  cbn. rewrite collect_app, csv_cells_collect.
  destruct (collect _ row onions); [|done]. cbn. apply IH.
Qed.

(** What [collect] returns, and when. *)
Lemma collect_elem {A} (f : A → result (option string)) xs acc s :
  collect f xs acc = Ok s →
  ∀ v, v ∈ s ↔
    v ∈ acc ∨ ∃ x, x ∈ xs ∧ f x = Ok v ∧ Normalizer.truthy_opt v = true.
Proof.
  revert acc. induction xs as [|x xs IH]; intros acc; cbn.
  - intros [= <-] v. split; [by left|]. intros [|(x & Hx & _)]; [done|].
    by apply elem_of_nil in Hx.
  - destruct (f x) as [url|e] eqn:E; [|discriminate]. cbn.
    intros H v. rewrite (IH _ H v). split.
    + intros [Hv|(y & Hy & Hfy & Ht)].
      * destruct (Normalizer.truthy_opt url) eqn:T; [|by left].
        apply elem_of_union in Hv as [->%elem_of_singleton|Hv]; [|by left].
        right. exists x. split; [by left|done].
      * right. exists y. split; [by right|done].
    + intros [Hv|(y & Hy & Hfy & Ht)].
      * left. destruct (Normalizer.truthy_opt url); [|done].
        apply elem_of_union. by right.
      * apply elem_of_cons in Hy as [->|Hy].
        -- left. rewrite E in Hfy. injection Hfy as ->. rewrite Ht.
           apply elem_of_union. left. by apply elem_of_singleton.
        -- right. by exists y.
Qed.

Lemma collect_returns {A} (f : A → result (option string)) xs acc :
  returns (collect f xs acc) ↔ Forall (λ x, returns (f x)) xs.
Proof.
  revert acc. induction xs as [|x xs IH]; intros acc; cbn.
  - split; [constructor|by eexists].
  - destruct (f x) as [url|e] eqn:E; cbn.
    + rewrite IH. split.
      * intros H. constructor; [by eexists|done].
      * by intros [_ H]%Forall_cons.
    + split.
      * by intros [? [=]].
      * intros [[? Hx] _]%Forall_cons. rewrite E in Hx. discriminate.
Qed.

Lemma collect_raises {A} (f : A → result (option string)) xs acc e :
  collect f xs acc = Raise e ↔
  ∃ pre x post,
    xs = (pre ++ x :: post)%list ∧ Forall (λ y, returns (f y)) pre
    ∧ f x = Raise e.
Proof.
  revert acc. induction xs as [|x xs IH]; intros acc; cbn.
  - split; [discriminate|]. intros (pre & y & post & H & _).
    by destruct pre.
  - destruct (f x) as [url|e'] eqn:E; cbn.
    + rewrite IH. split.
      * intros (pre & y & post & -> & Hpre & Hy).
        exists (x :: pre), y, post. split; [done|].
        split; [|done]. constructor; [by eexists|done].
      * intros (pre & y & post & Hxs & Hpre & Hy).
        destruct pre as [|p pre]; cbn in Hxs; injection Hxs as -> ->.
        -- rewrite E in Hy. discriminate.
        -- apply Forall_cons in Hpre as [_ Hpre]. by exists pre, y, post.
    + split.
      * intros [= ->]. exists [], x, xs. split; [done|].
        split; [constructor|done].
      * intros (pre & y & post & Hxs & Hpre & Hy).
        destruct pre as [|p pre]; cbn in Hxs; injection Hxs as -> ->.
        -- rewrite E in Hy. by injection Hy as ->.
        -- apply Forall_cons in Hpre as [[? Hp] _]. rewrite E in Hp.
           discriminate.
Qed.

Lemma same_outcome_refl r : same_outcome r r.
Proof. destruct r; cbn; done. Qed.

Lemma extract_truthy raw h :
  extract_clean_onion raw = Ok (Some h) →
  Normalizer.truthy_opt (Some h) = true.
Proof.
  intros [Hne _]%extract_clean_onion_sound. cbn. by destruct h.
Qed.

Lemma list_of_set_elem s v : v ∈ list_of_set s ↔ v ∈ s.
Proof. by rewrite list_of_set_elements, elem_of_elements. Qed.

(** X6.  A loader that returns has collected every target of its input and
    nothing else: a hostname is in the list exactly when some line,
    cell or text value of the input normalizes to it. *)
Theorem loaders_collect_all :
  (∀ lines l,
     load_onions_from_txt _check_bracketed_netloc list_of_set lines = Ok l →
     ∀ h, Some h ∈ l ↔
       ∃ line, line ∈ lines ∧ extract_clean_onion line = Ok (Some h))
  ∧ (∀ rows l,
       load_onions_from_csv _check_bracketed_netloc list_of_set rows = Ok l →
       ∀ h, Some h ∈ l ↔
         ∃ row cell, row ∈ rows ∧ cell ∈ row
           ∧ extract_clean_onion cell = Ok (Some h))
  ∧ (∀ rows l,
       load_onions_from_sqlite _check_bracketed_netloc list_of_set rows
       = Ok l →
       ∀ h, Some h ∈ l ↔
         ∃ raw, SqlText raw ∈ rows
           ∧ extract_clean_onion raw = Ok (Some h)).
Proof.
  split; [|split].
  - intros lines l. unfold load_onions_from_txt.
    rewrite txt_comprehension_collect.
    destruct (collect _ lines ∅) as [s|e] eqn:E; [|discriminate].
    intros [= <-] h. rewrite list_of_set_elem, (collect_elem _ _ _ _ E).
    split.
    + intros [Hv|(line & ? & ? & _)]; [set_solver|by exists line].
    + intros (line & ? & Hx). right. exists line.
      split; [done|]. split; [done|by eapply extract_truthy].
  - intros rows l. unfold load_onions_from_csv.
    rewrite csv_rows_collect.
    destruct (collect _ (mjoin rows) ∅) as [s|e] eqn:E; [|discriminate].
    intros [= <-] h. rewrite list_of_set_elem, (collect_elem _ _ _ _ E).
    split.
    + intros [Hv|(cell & Hc & ? & _)]; [set_solver|].
      apply list_elem_of_join in Hc as (row & ? & ?). by exists row, cell.
    + intros (row & cell & ? & ? & Hx). right. exists cell.
      split; [apply list_elem_of_join; by exists row|].
      split; [done|by eapply extract_truthy].
  - intros rows l. unfold load_onions_from_sqlite.
    rewrite sqlite_rows_collect.
    destruct (collect _ rows ∅) as [s|e] eqn:E; [|discriminate].
    intros [= <-] h. rewrite list_of_set_elem, (collect_elem _ _ _ _ E).
    split.
    + intros [Hv|(v & Hv & Hx & _)]; [set_solver|].
      destruct v as [| | |raw|b]; try discriminate.
      * by exists raw.
      * cbn in Hx. by destruct (UrlParse.all_chars _ _).
    + intros (raw & ? & Hx). right. exists (SqlText raw).
      split; [done|]. split; [done|by eapply extract_truthy].
Qed.

(** X7.  A loader ends with an exception exactly when some item of its
    input cannot be normalized, and the exception is the one of the
    first such item, in reading order. *)
Theorem loaders_fail_at_first_fault :
  (∀ lines e,
     load_onions_from_txt _check_bracketed_netloc list_of_set lines
     = Raise e ↔
     ∃ pre line post,
       lines = (pre ++ line :: post)%list
       ∧ Forall (λ x, returns (extract_clean_onion x)) pre
       ∧ extract_clean_onion line = Raise e)
  ∧ (∀ rows e,
       load_onions_from_csv _check_bracketed_netloc list_of_set rows
       = Raise e ↔
       ∃ pre cell post,
         mjoin rows = (pre ++ cell :: post)%list
         ∧ Forall (λ x, returns (extract_clean_onion x)) pre
         ∧ extract_clean_onion cell = Raise e)
  ∧ (∀ rows e,
       load_onions_from_sqlite _check_bracketed_netloc list_of_set rows
       = Raise e ↔
       ∃ pre v post,
         rows = (pre ++ v :: post)%list
         ∧ Forall (λ x, returns (extract_clean_onion_value x)) pre
         ∧ extract_clean_onion_value v = Raise e).
Proof.
  split; [|split].
  - intros lines e. unfold load_onions_from_txt.
    rewrite txt_comprehension_collect,
      <- (collect_raises extract_clean_onion lines ∅ e).
    destruct (collect _ lines ∅); cbn; split;
      (discriminate || by intros [= ->]).
  - intros rows e. unfold load_onions_from_csv.
    rewrite csv_rows_collect,
      <- (collect_raises extract_clean_onion (mjoin rows) ∅ e).
    destruct (collect _ (mjoin rows) ∅); cbn; split;
      (discriminate || by intros [= ->]).
  - intros rows e. unfold load_onions_from_sqlite.
    rewrite sqlite_rows_collect,
      <- (collect_raises extract_clean_onion_value rows ∅ e).
    destruct (collect _ rows ∅); cbn; split;
      (discriminate || by intros [= ->]).
Qed.

(** X8.  Reading a table is reading the text file of its cells, row by
    row. *)
Theorem load_csv_as_txt (rows : list (list string)) :
  same_outcome
    (load_onions_from_csv _check_bracketed_netloc list_of_set rows)
    (load_onions_from_txt _check_bracketed_netloc list_of_set
       (mjoin rows)).
Proof.
  unfold load_onions_from_csv, load_onions_from_txt.
  rewrite csv_rows_collect, txt_comprehension_collect.
  apply same_outcome_refl.
Qed.

(** X9.  A column value that is NULL or a number makes the database loader
    fail: it returns no list. *)
Theorem load_sqlite_rejects_non_text (rows : list sql_value)
    (v : sql_value) :
  v ∈ rows →
  (v = SqlNull ∨ (∃ n, v = SqlInteger n) ∨ (∃ x, v = SqlReal x)) →
  ∃ e, load_onions_from_sqlite _check_bracketed_netloc list_of_set rows
       = Raise e.
Proof.
  intros Hv Hkind. unfold load_onions_from_sqlite.
  rewrite sqlite_rows_collect.
  destruct (collect _ rows ∅) as [s|e] eqn:E; [|by exists e].
  exfalso.
  assert (Hr : returns (collect extract_clean_onion_value rows ∅))
    by (by eexists).
  apply collect_returns in Hr.
  rewrite Forall_forall in Hr. destruct (Hr v Hv) as [u Hu].
  by destruct Hkind as [->|[[n ->]|[x ->]]].
Qed.

(** X10.  The text loader does not see the order of the lines nor their
    repetition: on two inputs with the same lines it returns for both
    or for none, and the lists it returns have the same elements. *)
Theorem load_txt_order_independent (lines lines' : list string) :
  (∀ x, x ∈ lines ↔ x ∈ lines') →
  (returns (load_onions_from_txt _check_bracketed_netloc list_of_set lines)
   ↔ returns (load_onions_from_txt _check_bracketed_netloc list_of_set
                lines'))
  ∧ (∀ l l',
       load_onions_from_txt _check_bracketed_netloc list_of_set lines
       = Ok l →
       load_onions_from_txt _check_bracketed_netloc list_of_set lines'
       = Ok l' →
       l ≡ₚ l').
Proof.
  intros Hsame. unfold load_onions_from_txt.
  rewrite !txt_comprehension_collect. split.
  - assert (Hret : ∀ xs,
      returns (s ← collect extract_clean_onion xs ∅; Ok (list_of_set s))
      ↔ returns (collect extract_clean_onion xs ∅)).
    { intros xs. destruct (collect _ xs ∅); split; intros [? [=]];
        by eexists. }
    rewrite !Hret, !collect_returns, !Forall_forall.
    split; intros H x Hx; apply H; by apply Hsame.
  - intros l l'.
    destruct (collect _ lines ∅) as [s|] eqn:E; [|discriminate].
    destruct (collect _ lines' ∅) as [s'|] eqn:E'; [|discriminate].
    intros [= <-] [= <-]. rewrite !list_of_set_elements.
    assert (Hs : s = s'); [|by rewrite Hs].
    apply set_eq. intros v.
    rewrite (collect_elem _ _ _ _ E), (collect_elem _ _ _ _ E').
    split; (intros [?|(x & Hx & ?)]; [by left|]); right; exists x;
      (split; [by apply Hsame|done]).
Qed.

End loaders_extra.

Section round_facts.

Import Extra.

Lemma round_half_even_Z (n : Z) : round_half_even (inject_Z n) = n.
Proof.
  unfold round_half_even. rewrite Qfloor_Z.
  assert (E : (inject_Z n - inject_Z n == 0)%Q) by ring.
  rewrite (Qcompare_comp _ _ E (1 # 2)%Q (1 # 2)%Q (Qeq_refl _)).
  reflexivity.
Qed.

Lemma round_half_even_mono (x y : Q) :
  (x <= y)%Q → (round_half_even x <= round_half_even y)%Z.
Proof.
  intros Hxy.
  destruct (Z.le_gt_cases (round_half_even x) (round_half_even y))
    as [|Hgt]; [done|exfalso].
  pose proof (round_half_even_near x) as Hx.
  pose proof (round_half_even_near y) as Hy.
  apply Qabs_Qle_condition in Hx as [Hx1 Hx2].
  apply Qabs_Qle_condition in Hy as [Hy1 Hy2].
  assert (Hz : (inject_Z (round_half_even y) + 1
                <= inject_Z (round_half_even x))%Q).
  { rewrite <- (inject_Z_plus _ 1). rewrite <- Zle_Qle. lia. }
  assert (E : (x == y)%Q) by lra.
  rewrite (round_half_even_compat _ _ E) in Hgt. lia.
Qed.

(** [round] fixes the numbers with two decimals. *)
Lemma round_2_fixed (k : Z) : round (Qred (k # 100)) 2 = Qred (k # 100).
Proof.
  rewrite round_hundredths. f_equal.
  rewrite (round_half_even_compat _ (inject_Z k)); [by rewrite round_half_even_Z|].
  rewrite Qred_correct.
  unfold Qeq, Qmult, inject_Z; simpl. lia.
Qed.

Lemma round_2_mono (x y : Q) : (x <= y)%Q → (round x 2 <= round y 2)%Q.
Proof.
  intros Hxy. rewrite !round_hundredths, !Qred_correct.
  assert (H : (round_half_even (x * 100) <= round_half_even (y * 100))%Z).
  { apply round_half_even_mono. lra. }
  unfold Qle; simpl. lia.
Qed.

(** Rounding twice is rounding once. *)
Lemma round_2_idemp (x : Q) : round (round x 2) 2 = round x 2.
Proof. rewrite (round_hundredths x). apply round_2_fixed. Qed.

End round_facts.

Section probe_extra.

Import Extra.
Import Probe.

Lemma check_onion_response_time net url d x :
  check_onion net url = Ok d →
  d !! "response_time" = Some (PFloat x) →
  x = round (t_end (net ("http://" +:+ url))
             - t_start (net ("http://" +:+ url)))%Q 2.
Proof.
  rewrite check_onion_unfold. cbv zeta.
  destruct (requests_get _) as [c|e];
    [|destruct (isinstance_Exception e); [|discriminate]];
    intros [= <-] Hx; unfold fields in Hx;
    rewrite lookup_insert_eq in Hx; by injection Hx as <-.
Qed.

(** X11.  The response time of a probe is not negative when the clock
    does not run backwards. *)
Theorem check_onion_elapsed_nonneg (net : world) (url : string)
    (d : gmap string pyval) (x : Q) :
  let env := net ("http://" +:+ url) in
  (t_start env <= t_end env)%Q →
  check_onion net url = Ok d →
  d !! "response_time" = Some (PFloat x) →
  (0 <= x)%Q.
Proof.
  intros env Hle Hd Hx.
  rewrite (check_onion_response_time _ _ _ _ Hd Hx). fold env.
  change 0%Q with (round 0 2). apply round_2_mono. lra.
Qed.

End probe_extra.

Section report_extra.

Import Extra.
Import Probe Pool Report.

Lemma foldr_Qplus_bounds (l : list Q) (lo hi : Q) :
  (∀ x, x ∈ l → (lo <= x <= hi)%Q) →
  (inject_Z (Z.of_nat (length l)) * lo <= foldr Qplus 0 l
   <= inject_Z (Z.of_nat (length l)) * hi)%Q.
Proof.
  induction l as [|x l IH]; intros H.
  - cbn [length foldr]. change (inject_Z (Z.of_nat 0)) with 0%Q. lra.
  - destruct (H x) as [H1 H2]; [by left|].
    destruct IH as [I1 I2]; [intros y Hy; apply H; by right|].
    cbn [length foldr]. rewrite Nat2Z.inj_succ, <- Z.add_1_r, inject_Z_plus.
    change (inject_Z 1) with 1%Q. lra.
Qed.

Lemma arithmetic_mean_bounds (l : list Q) (lo hi : Q) :
  l ≠ [] → (∀ x, x ∈ l → (lo <= x <= hi)%Q) →
  (lo <= Spec.arithmetic_mean l <= hi)%Q.
Proof.
  intros Hne H. destruct (foldr_Qplus_bounds l lo hi H) as [H1 H2].
  unfold Spec.arithmetic_mean.
  assert (Hn : (0 < inject_Z (Z.of_nat (length l)))%Q).
  { change 0%Q with (inject_Z 0). rewrite <- Zlt_Qlt.
    destruct l; [done|]. cbn [length]. lia. }
  split.
  - apply Qle_shift_div_l; [done|]. lra.
  - apply Qle_shift_div_r; [done|]. lra.
Qed.

Lemma durations_elem results x :
  x ∈ Spec.durations results →
  ∃ d, d ∈ results ∧ d !! "response_time" = Some (PFloat x).
Proof.
  unfold Spec.durations. intros (d & Hd & E)%list_elem_of_omap.
  exists d. split; [done|].
  destruct (d !! "response_time") as [[|y]|]; try discriminate.
  by injection E as ->.
Qed.

(** X12.  The average of a report lies between the smallest and the largest
    response time of its outcomes. *)
Theorem report_mean_between (net : world) (onion_urls : list string)
    (schedule : list event) (rep : report) (lo hi : Q) :
  main net onion_urls schedule = Some (Ok rep) →
  lo ∈ Spec.durations (outcomes rep) →
  hi ∈ Spec.durations (outcomes rep) →
  (∀ x, x ∈ Spec.durations (outcomes rep) → (lo <= x <= hi)%Q) →
  (lo <= avg_time rep <= hi)%Q.
Proof.
  intros Hmain Hlo Hhi Hall.
  destruct (main_inv _ _ _ _ Hmain) as (s & Hrun & Hs).
  destruct (raised s) eqn:Hra; [discriminate|]. destruct Hs as [Hd Hr].
  pose proof (run_results_response_time _ _ _ _ _ Hrun) as Hrt.
  assert (Hne : results s ≠ []).
  { intros E. rewrite E in Hr. discriminate. }
  rewrite (average_spec _ Hne Hrt) in Hr.
  cbv [mbind result_bind] in Hr. injection Hr as ->.
  cbn [outcomes avg_time] in *.
  assert (Hfix : ∀ x, x ∈ Spec.durations (results s) → round x 2 = x).
  { intros x (d & Hdr & Hx)%durations_elem.
    destruct (run_results_origin _ _ _ _ _ _ Hrun Hdr) as (url & _ & E).
    rewrite (check_onion_response_time _ _ _ _ E Hx).
    apply round_2_idemp. }
  assert (Hm : (lo <= Spec.arithmetic_mean (Spec.durations (results s)) <= hi)%Q).
  { apply arithmetic_mean_bounds; [|done]. intros E. rewrite E in Hlo.
    by apply elem_of_nil in Hlo. }
  destruct Hm as [H1 H2]. split.
  - apply Qle_trans with (round lo 2); [|by apply round_2_mono].
    rewrite (Hfix lo Hlo). apply Qle_refl.
  - apply Qle_trans with (round hi 2); [by apply round_2_mono|].
    rewrite (Hfix hi Hhi). apply Qle_refl.
Qed.

End report_extra.

Section pool_extra.

Import Extra.

Import Probe Pool Report.
Local Open Scope nat_scope.

Variable max_workers : nat.
Variable fn : string → result (gmap string pyval).

Local Abbreviation step := (Pool.step max_workers fn).
Local Abbreviation run := (Pool.run max_workers fn).

(** The three phases of the sequential schedule. *)
Lemma run_submit_all us qu ru fi re ra st :
  run (us ≫= λ _, [Submit])
      {| unsubmitted := us; queue := qu; running := ru; finished := fi;
         results := re; raised := ra; started := st |}
  = Some {| unsubmitted := []; queue := qu ++ us; running := ru;
            finished := fi; results := re; raised := ra; started := st |}.
Proof.
  revert qu. induction us as [|u us IH]; intros qu.
  - cbn. by rewrite app_nil_r.
  - cbn. rewrite IH. by rewrite <- app_assoc.
Qed.

Lemma run_sequential us un fi re ra st :
  1 ≤ max_workers →
  run (sequential us)
      {| unsubmitted := un; queue := us; running := []; finished := fi;
         results := re; raised := ra; started := st |}
  = Some {| unsubmitted := un; queue := []; running := [];
            finished := fi ++ (fn <$> us); results := re; raised := ra;
            started := st ++ us |}.
Proof.
  intros Hmax. revert fi st. induction us as [|u us IH]; intros fi st.
  - cbn. by rewrite !app_nil_r.
  - cbn. destruct (decide (0 < max_workers)); [|lia]. cbn.
    rewrite IH. by rewrite <- !app_assoc.
Qed.

Lemma run_yield_all ds qu ru re st :
  run (ds ≫= λ _, [Yield 0])
      {| unsubmitted := []; queue := qu; running := ru;
         finished := Ok <$> ds; results := re; raised := None;
         started := st |}
  = Some {| unsubmitted := []; queue := qu; running := ru; finished := [];
            results := re ++ ds; raised := None; started := st |}.
Proof.
  revert re. induction ds as [|d ds IH]; intros re.
  - cbn. by rewrite app_nil_r.
  - cbn. rewrite IH. by rewrite <- app_assoc.
Qed.

Lemma bind_const_length {A A' B} (l1 : list A) (l2 : list A')
    (k : list B) :
  length l1 = length l2 → (l1 ≫= λ _, k) = (l2 ≫= λ _, k).
Proof.
  revert l2. induction l1 as [|a l1 IH]; intros [|b l2]; try done.
  intros [= H]. cbn. by rewrite (IH l2 H).
Qed.

(** Whatever the number of workers, the schedule that submits every
    URL, runs the calls one after the other and then takes the futures
    in turn is a complete run, and it collects the outcomes in the
    order of the list. *)
Lemma sequential_schedule_complete (onion_urls : list string)
    (ds : list (gmap string pyval)) :
  1 ≤ max_workers →
  Forall2 (λ url d, fn url = Ok d) onion_urls ds →
  run (sequential_schedule onion_urls) (init onion_urls)
  = Some {| unsubmitted := []; queue := []; running := []; finished := [];
            results := ds; raised := None; started := onion_urls |}.
Proof.
  intros Hmax Hds. unfold sequential_schedule, init.
  assert (Hfn : fn <$> onion_urls = Ok <$> ds).
  { induction Hds as [|u d us ds' E _ IH]; [done|]. cbn. by rewrite E, IH. }
  erewrite run_app; [reflexivity|apply run_submit_all|].
  erewrite run_app; [reflexivity|by apply run_sequential|].
  cbn. rewrite Hfn.
  rewrite (bind_const_length onion_urls ds [Yield 0])
    by (by eapply Forall2_length).
  by rewrite run_yield_all.
Qed.

End pool_extra.

Section main_extra.

Import Extra.

Import Probe Pool Report.
Local Open Scope nat_scope.

(** X15.  On a network whose faults are exceptions and a non-empty list of
    URLs, [main] returns a report under the sequential schedule, with
    one outcome per URL in the order of the list. *)
Theorem main_sequential_in_order (net : world) (onion_urls : list string) :
  faults_are_exceptions net → onion_urls ≠ [] →
  ∃ rep,
    main net onion_urls (sequential_schedule onion_urls) = Some (Ok rep)
    ∧ Forall2 (λ url d, check_onion net url = Ok d)
        onion_urls (outcomes rep).
Proof.
  intros Hnet Hne.
  assert (Hds : ∃ ds, Forall2 (λ url d, check_onion net url = Ok d)
                        onion_urls ds).
  { clear Hne. induction onion_urls as [|u us [ds IH]]; [by exists []|].
    destruct (check_onion_returns net u Hnet) as [d E].
    exists (d :: ds). by constructor. }
  destruct Hds as [ds Hds].
  pose proof (sequential_schedule_complete MAX_THREADS (check_onion net)
                onion_urls ds ltac:(unfold MAX_THREADS; lia) Hds) as Hrun.
  assert (Hrt : Forall Spec.has_response_time ds).
  { pose proof (run_results_response_time _ _ _ _ _ Hrun) as H. exact H. }
  assert (Hds_ne : ds ≠ []).
  { intros ->. apply Forall2_length in Hds. by destruct onion_urls. }
  eexists. split.
  - unfold main. rewrite Hrun. cbv [mbind option_bind].
    cbn [raised loop_done unsubmitted queue running finished results].
    rewrite (average_spec _ Hds_ne Hrt). reflexivity.
  - exact Hds.
Qed.

(** X16.  A fault that is not an [Exception] is not recovered: when the
    request of one of the URLs fails with such a fault, no complete run
    of [main] returns a report; [main] ends with an exception that is
    not an [Exception]. *)
Theorem main_interrupted (net : world) (onion_urls : list string)
    (schedule : list event) (r : result report) (url : string) (e : exn) :
  url ∈ onion_urls →
  requests_get (net ("http://" +:+ url)) = Fails e →
  isinstance_Exception e = false →
  main net onion_urls schedule = Some r →
  ∃ e', r = Raise e' ∧ isinstance_Exception e' = false.
Proof.
  intros Hurl Hget He Hmain.
  assert (E : check_onion net url = Raise e).
  { rewrite check_onion_unfold. cbv zeta. by rewrite Hget, He. }
  destruct (main_inv _ _ _ _ Hmain) as (s & Hrun & Hs).
  pose proof (run_account _ _ _ _ _ Hrun) as Hacc.
  unfold account at 2 in Hacc. unfold init in Hacc. cbn in Hacc.
  rewrite app_nil_r in Hacc.
  destruct (raised s) as [e'|] eqn:Hra.
  - exists e'. split; [done|].
    assert (Hin : Raise e' ∈ account (check_onion net) s).
    { unfold account, raised_list. rewrite Hra, !elem_of_app.
      do 5 right. by left. }
    rewrite Hacc in Hin.
    apply list_elem_of_fmap in Hin as (u & Hu & _).
    rewrite check_onion_unfold in Hu. cbv zeta in Hu.
    destruct (requests_get (net ("http://" +:+ u))) as [c|e''];
      [discriminate|].
    destruct (isinstance_Exception e'') eqn:He''; [discriminate|].
    by injection Hu as ->.
  - exfalso. destruct Hs as [Hd _].
    rewrite (loop_done_account _ _ Hd) in Hacc.
    unfold raised_list in Hacc. rewrite Hra, app_nil_r in Hacc.
    assert (Hin : Raise e ∈ check_onion net <$> onion_urls).
    { rewrite <- E. by apply list_elem_of_fmap_2. }
    rewrite <- Hacc in Hin.
    by apply list_elem_of_fmap in Hin as (? & ? & _).
Qed.

End main_extra.

Section ingest_facts.

Import Extra.

Import Ingest UrlParse.

Lemma length_app_s (a b : string) :
  String.length (a +:+ b) = (String.length a + String.length b)%nat.
Proof.
  induction a as [|c a IH]; [done|].
  change (String c a +:+ b) with (String c (a +:+ b)). cbn. by rewrite IH.
Qed.

Lemma slice_from_app (a b : string) :
  slice_from (String.length a) (a +:+ b) = b.
Proof. induction a as [|c a IH]; [done|]. exact IH. Qed.

Lemma slice_to_app (a b : string) :
  slice_to (String.length a) (a +:+ b) = a.
Proof.
  induction a as [|c a IH]; [by destruct b|].
  change (String c a +:+ b) with (String c (a +:+ b)). cbn. by rewrite IH.
Qed.

Lemma slice_one (pre : string) (c : ascii) (t : string) :
  slice (String.length pre) (String.length pre + 1) (pre +:+ String c t)
  = String c "".
Proof.
  unfold slice. induction pre as [|d pre IH]; [by destruct t|].
  change (String d pre +:+ String c t) with (String d (pre +:+ String c t)).
  exact IH.
Qed.

Lemma rfind_aux_none c s i : contains c s = false → rfind_aux c s i = (-1)%Z.
Proof.
  revert i. induction s as [|d s IH]; intros i; [done|]. cbn.
  intros [Hd Hs]%orb_false_iff. by rewrite (IH _ Hs), Hd.
Qed.

Lemma rfind_aux_last c s t i :
  (0 <= i)%Z → contains c t = false →
  rfind_aux c (s +:+ String c t) i = (i + Z.of_nat (String.length s))%Z.
Proof.
  intros Hi Ht. revert i Hi. induction s as [|d s IH]; intros i Hi.
  - change ("" +:+ String c t) with (String c t). cbn.
    rewrite (rfind_aux_none _ _ _ Ht), Ascii.eqb_refl. cbn. lia.
  - change (String d s +:+ String c t) with (String d (s +:+ String c t)).
    cbn [rfind_aux String.length]. rewrite IH by lia.
    destruct (Z.leb_spec 0 (i + 1 + Z.of_nat (String.length s))); lia.
Qed.

Lemma splitext_loop_spec (pre rest tail : string) :
  _splitext_loop (pre +:+ rest +:+ tail) "."
    (String.length pre) (String.length pre + String.length rest)
    (String.length rest)
  = if all_chars is_dot rest then (pre +:+ rest +:+ tail, "")
    else (slice_to (String.length pre + String.length rest)
            (pre +:+ rest +:+ tail),
          slice_from (String.length pre + String.length rest)
            (pre +:+ rest +:+ tail)).
Proof.
  revert pre. induction rest as [|c r IH]; intros pre; [done|].
  cbn [_splitext_loop String.length all_chars].
  destruct (Nat.ltb_spec (String.length pre)
              (String.length pre + S (String.length r))); [|lia].
  change (String c r +:+ tail) with (String c (r +:+ tail)).
  rewrite slice_one.
  unfold is_dot at 1.
  destruct (Ascii.eqb_spec c ".") as [->|Hc].
  - cbn [String.eqb Ascii.eqb Bool.eqb negb andb].
    specialize (IH (pre +:+ String "." "")).
    rewrite length_app_s in IH. cbn [String.length] in IH.
    rewrite app_assoc_s in IH.
    change (String "." "" +:+ (r +:+ tail)) with (String "." (r +:+ tail)) in IH.
    replace (String.length pre + S (String.length r))%nat
      with (String.length pre + 1 + String.length r)%nat by lia.
    exact IH.
  - cbn [andb]. assert (E : String.eqb (String c "") "." = false).
    { apply String.eqb_neq. by intros [= ->]. }
    by rewrite E.
Qed.

Lemma rfind_aux_lower c s i : (0 <= i)%Z → (-1 <= rfind_aux c s i)%Z.
Proof.
  revert i. induction s as [|d s IH]; intros i Hi; cbn; [lia|].
  specialize (IH (i + 1)%Z ltac:(lia)).
  destruct (0 <=? rfind_aux c s (i + 1))%Z; [lia|].
  destruct (Ascii.eqb d c); lia.
Qed.

Variable os_sep : ascii.
Variable os_altsep : option ascii.
Variable readlines : string → list string.
Variable csv_reader : string → list (list string).
Variable fetchall : string → string → string → list Loaders.sql_value.
Variable _check_bracketed_netloc : string → result unit.
Variable list_of_set : gset (option string) → list (option string).

Local Abbreviation load_onion_urls INPUT_FILE :=
  (Ingest.load_onion_urls os_sep os_altsep INPUT_FILE readlines csv_reader
     fetchall _check_bracketed_netloc list_of_set).
Local Abbreviation no_separator := (Ingest.no_separator os_sep os_altsep).

Lemma sep_index_none name :
  no_separator name →
  match os_altsep with
  | Some a => Z.max (rfind os_sep name) (rfind a name)
  | None => rfind os_sep name
  end = (-1)%Z.
Proof.
  intros [Hs Ha]. unfold rfind. rewrite (rfind_aux_none _ _ _ Hs).
  destruct os_altsep as [a|]; [|done].
  by rewrite (rfind_aux_none _ _ _ (Ha a eq_refl)).
Qed.

Lemma splitext_name (stem e : string) :
  no_separator (stem +:+ String "." e) → contains "." e = false →
  splitext os_sep os_altsep (stem +:+ String "." e)
  = if all_chars is_dot stem then (stem +:+ String "." e, "")
    else (stem, String "." e).
Proof.
  intros Hsep He. unfold splitext, _splitext. cbv zeta.
  rewrite (sep_index_none _ Hsep).
  assert (Er : rfind "." (stem +:+ String "." e)
               = Z.of_nat (String.length stem)).
  { unfold rfind. by rewrite rfind_aux_last by (lia || done). }
  rewrite !Er.
  destruct (Z.ltb_spec (-1) (Z.of_nat (String.length stem))); [|lia].
  change (Z.to_nat (-1 + 1)) with 0%nat. rewrite Nat2Z.id, Nat.sub_0_r.
  pose proof (splitext_loop_spec "" stem (String "." e)) as Hl.
  change ("" +:+ stem +:+ String "." e) with (stem +:+ String "." e) in Hl.
  change (String.length "" + String.length stem)%nat
    with (String.length stem) in Hl.
  change (String.length "") with 0%nat in Hl.
  rewrite Hl. destruct (all_chars is_dot stem); [done|].
  by rewrite slice_to_app, slice_from_app.
Qed.

(** X17.  The loader is chosen by the extension of the file name, in any
    case.  For a name [stem.e] without directory part, where [e] has
    no dot and [stem] is not made of dots only, [load_onion_urls] is
    the text loader when [e] is [txt], the table loader when it is
    [csv], the database loader, on the configured table and column,
    when it is [sqlite], each on what reading the file yields; for any
    other [e] it raises [ValueError]. *)
Theorem load_onion_urls_by_extension (stem e : string) :
  no_separator (stem +:+ String "." e) →
  contains "." e = false → all_chars is_dot stem = false →
  load_onion_urls (stem +:+ String "." e) =
    if String.eqb (lower e) "txt"
    then Loaders.load_onions_from_txt _check_bracketed_netloc list_of_set
           (readlines (stem +:+ String "." e))
    else if String.eqb (lower e) "csv"
    then Loaders.load_onions_from_csv _check_bracketed_netloc list_of_set
           (csv_reader (stem +:+ String "." e))
    else if String.eqb (lower e) "sqlite"
    then Loaders.load_onions_from_sqlite _check_bracketed_netloc
           list_of_set
           (fetchall (stem +:+ String "." e) SQLITE_TABLE SQLITE_COLUMN)
    else Raise (ValueError
           "Unsupported input format. Use .txt, .csv, or .sqlite").
Proof.
  intros Hsep He Hstem. unfold Ingest.load_onion_urls.
  rewrite (splitext_name _ _ Hsep He), Hstem. cbn [snd].
  change (lower (String "." e)) with (String "." (lower e)).
  cbn [String.eqb Ascii.eqb Bool.eqb]. done.
Qed.

(** X18.  A file name without a dot, and a file name that consists of
    dots up to its last dot, such as [.txt], have no extension:
    [load_onion_urls] raises [ValueError] for them, whatever stands
    after the dots. *)
Theorem load_onion_urls_no_extension :
  (∀ name,
     contains "." name = false →
     load_onion_urls name
     = Raise (ValueError
         "Unsupported input format. Use .txt, .csv, or .sqlite"))
  ∧ (∀ dots e,
       no_separator (dots +:+ String "." e) →
       contains "." e = false → all_chars is_dot dots = true →
       load_onion_urls (dots +:+ String "." e)
       = Raise (ValueError
           "Unsupported input format. Use .txt, .csv, or .sqlite")).
Proof.
  split.
  - intros name Hdot. unfold Ingest.load_onion_urls, splitext, _splitext.
    cbv zeta.
    assert (Er : rfind "." name = (-1)%Z)
      by (unfold rfind; by rewrite (rfind_aux_none _ _ _ Hdot)).
    rewrite !Er.
    set (sepIndex := match os_altsep with Some a => _ | None => _ end).
    assert (Hs : (-1 <= sepIndex)%Z).
    { unfold sepIndex, rfind.
      pose proof (rfind_aux_lower os_sep name 0 ltac:(lia)).
      destruct os_altsep as [a|]; [|done]. lia. }
    destruct (Z.ltb_spec sepIndex (-1)); [lia|]. done.
  - intros dots e Hsep He Hdots. unfold Ingest.load_onion_urls.
    by rewrite (splitext_name _ _ Hsep He), Hdots.
Qed.

End ingest_facts.

(* ===================================================================== *)
(** ** The hostname of a URL *)
(* ===================================================================== *)

Section url_facts.

Import Extra.

Import Normalizer UrlParse.

Variable _check_bracketed_netloc : string → result unit.

Local Abbreviation extract_clean_onion :=
  (Normalizer.extract_clean_onion _check_bracketed_netloc).









Lemma authority_char_facts c :
  Spec.authority_char c = true →
  Ascii.eqb c "/" = false ∧ Ascii.eqb c "?" = false
  ∧ Ascii.eqb c "#" = false ∧ Ascii.eqb c "[" = false
  ∧ Ascii.eqb c "]" = false ∧ Ascii.eqb c "009" = false
  ∧ Ascii.eqb c "010" = false ∧ Ascii.eqb c "013" = false.
Proof. destruct c as [[] [] [] [] [] [] [] []]; by cbn. Qed.











End url_facts.

Section samples_url.

Import Examples.

Local Abbreviation extract := (Normalizer.extract_clean_onion no_bracket_check).



End samples_url.

(* ===================================================================== *)
(** ** The further properties at sample inputs *)
(* ===================================================================== *)

Section samples_extra.

Import Extra Probe Pool Report Examples.
Local Open Scope nat_scope.

Local Abbreviation extract := (Normalizer.extract_clean_onion no_bracket_check).

(** X2 on a line with blanks in front and a newline at the end. *)
Lemma extract_clean_onion_padding_witness :
  extract ("  " +:+ "FOO.onion" +:+ "
") = Ok (Some "foo.onion").
Proof.
  rewrite (extract_clean_onion_padding no_bracket_check "  " "FOO.onion" "
" eq_refl eq_refl).
  reflexivity.
Defined.

(** X3 on an [ftp] URL of an onion host. *)
Lemma extract_clean_onion_other_scheme_witness :
  extract ("FTP" +:+ "://" +:+ "abc.onion/x") = Ok None.
Proof.
  apply (extract_clean_onion_other_scheme no_bracket_check "FTP"
           "abc.onion/x"); [reflexivity|discriminate|discriminate].
Defined.

(** X4 on [abc.onion]. *)
Lemma extract_clean_onion_plain_host_witness :
  extract "abc.onion" = Ok (Some "abc.onion")
  ∧ extract ("http://" +:+ "abc.onion") = Ok (Some "abc.onion")
  ∧ extract ("https://" +:+ "abc.onion") = Ok (Some "abc.onion").
Proof.
  exact (extract_clean_onion_plain_host no_bracket_check "abc.onion"
           eq_refl eq_refl).
Defined.

(** X5 on an upper-case URL. *)
Lemma extract_clean_onion_lower_case_witness :
  lower "abc.onion" = "abc.onion".
Proof.
  exact (extract_clean_onion_lower_case no_bracket_check
           "HTTP://ABC.Onion/x" "abc.onion" eq_refl).
Defined.

(** X6 on a text file of three lines. *)
Lemma loaders_collect_all_witness :
  Some "foo.onion" ∈ [Some "foo.onion"] ↔
  ∃ line, line ∈ ["foo.onion
"; " FOO.onion "; "not-a-url"]
    ∧ extract line = Ok (Some "foo.onion").
Proof.
  destruct (loaders_collect_all no_bracket_check elements
              (λ s, reflexivity (elements s))) as (Htxt & _ & _).
  apply (Htxt ["foo.onion
"; " FOO.onion "; "not-a-url"]). reflexivity.
Defined.

(** X9 on a column with a NULL. *)
Lemma load_sqlite_rejects_non_text_witness :
  ∃ e, Loaders.load_onions_from_sqlite no_bracket_check elements
         [Loaders.SqlText "foo.onion"; Loaders.SqlNull] = Raise e.
Proof.
  apply (load_sqlite_rejects_non_text no_bracket_check elements
           _ Loaders.SqlNull).
  - apply list_elem_of_further, list_elem_of_here.
  - by left.
Defined.

(** X10 on two files with the same lines. *)
Lemma load_txt_order_independent_witness :
  ∃ l l',
    Loaders.load_onions_from_txt no_bracket_check elements
      ["a.onion"; "b.onion"; "a.onion"] = Ok l
    ∧ Loaders.load_onions_from_txt no_bracket_check elements
        ["b.onion"; "a.onion"] = Ok l'
    ∧ l ≡ₚ l'.
Proof.
  eexists. eexists.
  split; [vm_compute; reflexivity|]. split; [vm_compute; reflexivity|].
  apply (proj2 (load_txt_order_independent no_bracket_check elements
                  (λ s, reflexivity (elements s))
                  ["a.onion"; "b.onion"; "a.onion"] ["b.onion"; "a.onion"]
                  ltac:(intros x; rewrite !elem_of_cons, !elem_of_nil;
                        tauto)));
    vm_compute; reflexivity.
Defined.

(** X11 at [abc.onion], which answers after half a second. *)
Lemma check_onion_elapsed_nonneg_witness : (0 <= 1 # 2)%Q.
Proof.
  refine (check_onion_elapsed_nonneg net "abc.onion" _ (1 # 2)
            _ eq_refl eq_refl).
  vm_compute. discriminate.
Defined.

(** X12 in the scenario of the two targets. *)
Lemma report_mean_between_witness :
  ∃ rep,
    main net ["xyz.onion"; "abc.onion"]
      (sequential_schedule ["xyz.onion"; "abc.onion"]) = Some (Ok rep)
    ∧ (1 # 2 <= avg_time rep <= 10)%Q.
Proof.
  eexists. split; [vm_compute; reflexivity|].
  match goal with
  | |- (_ <= avg_time ?rep <= _)%Q =>
      assert (Hd : Spec.durations (outcomes rep) = [10%Q; (1 # 2)%Q])
        by (vm_compute; reflexivity);
      apply (report_mean_between net ["xyz.onion"; "abc.onion"]
               (sequential_schedule ["xyz.onion"; "abc.onion"]) rep)
  end.
  - vm_compute. reflexivity.
  - rewrite Hd. apply list_elem_of_further, list_elem_of_here.
  - rewrite Hd. apply list_elem_of_here.
  - rewrite Hd. intros x. rewrite !elem_of_cons, elem_of_nil.
    intros [->|[->|[]]]; split; unfold Qle; cbn; lia.
Defined.

(** X15 on the three targets. *)
Lemma main_sequential_in_order_witness :
  ∃ rep,
    main net three_targets (sequential_schedule three_targets)
    = Some (Ok rep)
    ∧ Forall2 (λ url d, check_onion net url = Ok d)
        three_targets (outcomes rep).
Proof.
  exact (main_sequential_in_order net three_targets
           net_faults_are_exceptions ltac:(discriminate)).
Defined.

(** X16 with an interrupted request for [xyz.onion]. *)
Lemma main_interrupted_witness :
  ∃ e',
    main interrupted_net ["abc.onion"; "xyz.onion"]
      (sequential_schedule ["abc.onion"; "xyz.onion"]) = Some (Raise e')
    ∧ isinstance_Exception e' = false.
Proof.
  assert (E : ∃ r, main interrupted_net ["abc.onion"; "xyz.onion"]
                (sequential_schedule ["abc.onion"; "xyz.onion"]) = Some r)
    by (vm_compute; eexists; reflexivity).
  destruct E as [r E].
  destruct (main_interrupted interrupted_net _ _ r "xyz.onion"
              KeyboardInterrupt
              ltac:(apply list_elem_of_further, list_elem_of_here)
              eq_refl eq_refl E) as (e' & -> & He').
  exists e'. split; [exact E|exact He'].
Defined.

(** X17 on the file name of the script and a file of two lines. *)
Lemma load_onion_urls_by_extension_witness :
  Ingest.load_onion_urls "/" None "onion_list.txt"
    (λ _, ["foo.onion
"; "not-a-url"]) (λ _, []) (λ _ _ _, []) no_bracket_check elements
  = Ok [Some "foo.onion"].
Proof.
  etrans.
  - apply (load_onion_urls_by_extension "/" None _ _ _ no_bracket_check
             elements "onion_list" "txt");
      [split; [reflexivity|intros a [=]]|reflexivity|reflexivity].
  - vm_compute. reflexivity.
Defined.

(** X18 on the file name [.txt]. *)
Lemma load_onion_urls_no_extension_witness :
  Ingest.load_onion_urls "/" None ".txt"
    (λ _, ["foo.onion"]) (λ _, []) (λ _ _ _, []) no_bracket_check elements
  = Raise (ValueError
      "Unsupported input format. Use .txt, .csv, or .sqlite").
Proof.
  apply (proj2 (load_onion_urls_no_extension "/" None _ _ _ no_bracket_check
                  elements) "" "txt");
    [split; [reflexivity|intros a [=]]|reflexivity|reflexivity].
Defined.

(** X19 on the sample network, one target after the other. *)
Lemma main_two_targets_witness :
  ∃ rep,
    main net ["xyz.onion"; "abc.onion"]
      (sequential_schedule ["xyz.onion"; "abc.onion"]) = Some (Ok rep)
    ∧ avg_time rep = (21 # 4)%Q.
Proof.
  assert (E : ∃ r, main net ["xyz.onion"; "abc.onion"]
                (sequential_schedule ["xyz.onion"; "abc.onion"]) = Some r)
    by (vm_compute; eexists; reflexivity).
  destruct E as [r E].
  destruct (main_two_targets net ["xyz.onion"; "abc.onion"]
              (perm_swap _ _ _)
              eq_refl ltac:(reflexivity) eq_refl ltac:(reflexivity))
    as [_ Hall].
  destruct (Hall _ _ E) as (rep & -> & _ & Havg).
  exists rep. split; [exact E|exact Havg].
Defined.

End samples_extra.
